(** * Primal Genesis web interface: orchestration and live-status layer

    A shallow embedding of [src/primal_genesis_web_interface.py]: the five
    request handlers ([generate_traffic], [switch_provider],
    [switch_mystical_mode], [get_sovereign_status],
    [initiate_sovereign_protocol]), the startup hook and the WebSocket
    handler, over an explicit process state ([World]).

    - Python exceptions are values of [Exception].  A handler is a
      computation in the monad [M], which threads the process state and
      keeps every mutation made before an exception was raised: Python does
      not roll back.
    - The engine class and its two enumerations are imported by the source
      from [src/ai_models/primal_genesis_model.py].  What the handlers need
      of them is in [Module PrimalGenesisProvider], [Module MysticalMode]
      and [Module Engine]; the generation backend, the protocol method and
      the constructor of the engine are parameters.  The provider and the
      mode of the configuration are attributes that hold Python objects
      ([PyObject]): that they hold members of the enumerations is a
      property of the code that assigns them, not of their type.
    - A request handler runs to its end in one step; the WebSocket handler
      is a coroutine that the event loop resumes, one [await] at a time
      ([websocket_endpoint], [step]): a message is built, from the state
      and the clock of that moment, before the handler is suspended in its
      send.  Time is the clock that [datetime.now()] reads and
      [asyncio.sleep] waits on.
    - The calls of the logger, the page served at [/] and the command line
      of the module have no part in what is stated here and are left out. *)

From stdpp Require Import gmap strings list.
From Stdlib Require Import Ascii ZArith QArith.
Local Open Scope Z_scope.

(** ** The closed enumerations *)

Module PrimalGenesisProvider.

(** Modelled from the spec: the closed seven-member enumeration of
    provider identifiers (its declaration is in
    [src/ai_models/primal_genesis_model.py]).  The member values are the
    ones the page served by this file offers in its provider selectors;
    [MISTRAL] is the member the startup hook names. *)
Inductive t : Set :=
| MISTRAL | OPENAI | ANTHROPIC | GEMINI | COHERE | DEEPSEEK | PHANTOM.

(** The identifier of a member, as the provider selectors of the page
    list them. *)
Definition value (p : t) : string :=
  match p with
  | MISTRAL => "mistral"
  | OPENAI => "openai"
  | ANTHROPIC => "anthropic"
  | GEMINI => "gemini"
  | COHERE => "cohere"
  | DEEPSEEK => "deepseek"
  | PHANTOM => "phantom"
  end.

Definition members : list t :=
  [MISTRAL; OPENAI; ANTHROPIC; GEMINI; COHERE; DEEPSEEK; PHANTOM].

Definition values : list string := value <$> members.

(** [PrimalGenesisProvider(s)]: the member whose value is [s]; [None]
    stands for the [ValueError] the enumeration raises otherwise. *)
Definition of_value (s : string) : option t :=
  List.find (fun p => String.eqb (value p) s) members.

Definition to_nat (p : t) : nat :=
  match p with
  | MISTRAL => 0 | OPENAI => 1 | ANTHROPIC => 2 | GEMINI => 3
  | COHERE => 4 | DEEPSEEK => 5 | PHANTOM => 6
  end%nat.

Definition of_nat (n : nat) : t :=
  match n with
  | 0 => MISTRAL | 1 => OPENAI | 2 => ANTHROPIC | 3 => GEMINI
  | 4 => COHERE | 5 => DEEPSEEK | _ => PHANTOM
  end%nat.

#[global] Instance eq_dec : EqDecision t.
Proof. solve_decision. Defined.

#[global] Instance countable : Countable t.
Proof. apply (inj_countable' to_nat of_nat). intros []; reflexivity. Defined.

End PrimalGenesisProvider.

Module MysticalMode.

(** Modelled from the spec: the closed six-member enumeration of operating
    modes (declared next to the providers, outside this file).  The values
    are those of the page's mode selectors; [SOVEREIGN] is the member the
    startup hook names. *)
Inductive t : Set :=
| SOVEREIGN | CREATIVE | TECHNICAL | WORKFLOW | GOVERNMENT | ETHEREAL.

(** The identifier of a member, as the mode selectors of the page list
    them. *)
Definition value (m : t) : string :=
  match m with
  | SOVEREIGN => "sovereign"
  | CREATIVE => "creative"
  | TECHNICAL => "technical"
  | WORKFLOW => "workflow"
  | GOVERNMENT => "government"
  | ETHEREAL => "ethereal"
  end.

Definition members : list t :=
  [SOVEREIGN; CREATIVE; TECHNICAL; WORKFLOW; GOVERNMENT; ETHEREAL].

Definition values : list string := value <$> members.

(** [MysticalMode(s)], [None] for the [ValueError]. *)
Definition of_value (s : string) : option t :=
  List.find (fun m => String.eqb (value m) s) members.

#[global] Instance eq_dec : EqDecision t.
Proof. solve_decision. Defined.

End MysticalMode.

(** ** Exceptions and JSON values *)

(** The exceptions the handlers can see; [OSError] is what the transport
    under the web framework raises when it cannot deliver.  [str(e)]
    depends on the class of [e] and on the web framework, so the detail of
    a re-raised error keeps the exception it was built from ([StrOf]). *)
Inductive Exception : Type :=
| ValueError (what : string)
| KeyError (key : string)
| JSONDecodeError (doc : string)
| BackendFailure (cause : string)
| WebSocketDisconnect
| OSError (what : string)
| AttributeError (what : string)
| HTTPException (status_code : Z) (detail : Detail)
with Detail : Type :=
| Text (s : string)
| StrOf (e : Exception).

#[warnings="-register-all"]
Inductive Json : Type :=
| JNull
| JBool (b : bool)
| JInt (n : Z)
| JStr (s : string)
| JArr (items : list Json)
| JObj (fields : list (string * Json)).

(** ** Request models (pydantic) *)

Module TrafficRequest.
Record t := {
  target_url : string;
  behavior_type : string;
  intensity : Z;
  provider : option string;
  mystical_mode : option string
}.
End TrafficRequest.

Module ProviderConfig.
Record t := {
  provider : string;
  api_key : string
}.
End ProviderConfig.

Module MysticalModeRequest.
Record t := {
  mode : string
}.
End MysticalModeRequest.

(** Truth value of a [str] and of an [Optional[str]] in an [if]. *)
Definition truthy (s : string) : bool :=
  match s with "" => false | _ => true end.

Definition truthy_opt (o : option string) : bool :=
  match o with Some s => truthy s | None => false end.

(** ** The engine, as this file uses it *)

(** What an attribute of the configuration can hold.  Python does not check
    the annotation of a field: the members of the two enumerations are
    objects among others, such as a plain [str] or [None]. *)
Inductive PyObject : Type :=
| PyNone
| PyStr (s : string)
| PyProvider (p : PrimalGenesisProvider.t)
| PyMode (m : MysticalMode.t).

Module Engine.

(** Modelled from the spec: [PrimalGenesisConfig], the configuration
    aggregate (declared with the engine, outside this file); its fields are
    the keywords the startup hook passes. *)
Record PrimalGenesisConfig := {
  primary_provider : PyObject;
  mystical_mode : PyObject;
  enable_phantom_analytics : bool;
  enable_shadow_tendrils : bool;
  quantum_entropy_level : Z;
  ethereal_frequency : Q
}.

(** Modelled from the spec: [PrimalGenesisModel], the engine class
    (declared outside this file): the configuration it owns, which is the
    Registry, the per-provider table [provider_configs] that the provider
    handler indexes, and the readiness flag its status reports. *)
Record PrimalGenesisModel := {
  config : PrimalGenesisConfig;
  provider_configs : gmap PrimalGenesisProvider.t (gmap string string);
  sovereign_awakened : bool
}.

(** Modelled from the spec: what the generation call returns, of which
    the handler reads [content], a JSON text, and [metadata]. *)
Record AIResponse := {
  content : string;
  metadata : Json
}.

(** Modelled from the spec: the mapping [get_sovereign_status] returns,
    the configuration snapshot with the readiness flag, under the keys the
    page reads from it. *)
Record SovereignStatus := {
  st_sovereign_awakened : bool;
  st_current_provider : string;
  st_mystical_mode : string;
  st_ethereal_frequency : Q;
  st_quantum_entropy_level : Z;
  st_shadow_tendrils_active : bool;
  st_phantom_analytics_enabled : bool
}.

(** Modelled from the spec: [PrimalGenesisModel.switch_provider], the
    commit of the Registry's [setProvider]: the active provider becomes the
    object it is given, nothing else changes.  The check against the
    enumeration is not here: it is the enumeration's constructor, which the
    handlers call themselves before they call this method. *)
Definition switch_provider (p : PyObject)
    (pg : PrimalGenesisModel) : PrimalGenesisModel :=
  {| config :=
       {| primary_provider := p;
          mystical_mode := mystical_mode (config pg);
          enable_phantom_analytics := enable_phantom_analytics (config pg);
          enable_shadow_tendrils := enable_shadow_tendrils (config pg);
          quantum_entropy_level := quantum_entropy_level (config pg);
          ethereal_frequency := ethereal_frequency (config pg) |};
     provider_configs := provider_configs pg;
     sovereign_awakened := sovereign_awakened pg |}.

(** Modelled from the spec: [PrimalGenesisModel.switch_mystical_mode],
    the commit of the Registry's [setMode], in the same way. *)
Definition switch_mystical_mode (m : PyObject)
    (pg : PrimalGenesisModel) : PrimalGenesisModel :=
  {| config :=
       {| primary_provider := primary_provider (config pg);
          mystical_mode := m;
          enable_phantom_analytics := enable_phantom_analytics (config pg);
          enable_shadow_tendrils := enable_shadow_tendrils (config pg);
          quantum_entropy_level := quantum_entropy_level (config pg);
          ethereal_frequency := ethereal_frequency (config pg) |};
     provider_configs := provider_configs pg;
     sovereign_awakened := sovereign_awakened pg |}.

(** Modelled from the spec: the identifier a snapshot shows for what a
    field holds: the value of a member; a string shows as itself. *)
Definition identifier (v : PyObject) : string :=
  match v with
  | PyNone => "None"
  | PyStr s => s
  | PyProvider p => PrimalGenesisProvider.value p
  | PyMode m => MysticalMode.value m
  end.

(** Modelled from the spec: [PrimalGenesisModel.get_sovereign_status], the
    snapshot of the configuration with the readiness flag; it always
    answers, it reads and does not write. *)
Definition get_sovereign_status (pg : PrimalGenesisModel) : SovereignStatus :=
  {| st_sovereign_awakened := sovereign_awakened pg;
     st_current_provider := identifier (primary_provider (config pg));
     st_mystical_mode := identifier (mystical_mode (config pg));
     st_ethereal_frequency := ethereal_frequency (config pg);
     st_quantum_entropy_level := quantum_entropy_level (config pg);
     st_shadow_tendrils_active := enable_shadow_tendrils (config pg);
     st_phantom_analytics_enabled := enable_phantom_analytics (config pg) |}.

End Engine.

(** ** Process state *)

(** A connection object; two handlers never share one, and [list.remove]
    compares them by identity. *)
Definition WebSocket : Set := nat.

(** What a handler did to its collaborators, oldest first.  The log is not
    in the source: it records the order of the effects and lets the calls of
    the generation backend be counted. *)
Inductive Event : Type :=
| EnvironSet (key value : string)
| ProviderSwitched (p : PrimalGenesisProvider.t)
| ModeSwitched (m : MysticalMode.t)
| GenerateCalled (target_url behavior_type : string) (intensity : Z).

(** The globals [primal_genesis] and [active_connections], the process
    environment [os.environ], the wall clock that [datetime.now()] reads,
    and the log. *)
Record World := {
  primal_genesis : option Engine.PrimalGenesisModel;
  active_connections : list WebSocket;
  environ : gmap string string;
  clock : Z;
  history : list Event
}.

Definition with_engine (pg : option Engine.PrimalGenesisModel) (w : World) : World :=
  {| primal_genesis := pg;
     active_connections := active_connections w;
     environ := environ w;
     clock := clock w;
     history := history w |}.

Definition with_connections (l : list WebSocket) (w : World) : World :=
  {| primal_genesis := primal_genesis w;
     active_connections := l;
     environ := environ w;
     clock := clock w;
     history := history w |}.

Definition with_environ (env : gmap string string) (w : World) : World :=
  {| primal_genesis := primal_genesis w;
     active_connections := active_connections w;
     environ := env;
     clock := clock w;
     history := history w |}.

Definition with_clock (t : Z) (w : World) : World :=
  {| primal_genesis := primal_genesis w;
     active_connections := active_connections w;
     environ := environ w;
     clock := t;
     history := history w |}.

Definition log_event (ev : Event) (w : World) : World :=
  {| primal_genesis := primal_genesis w;
     active_connections := active_connections w;
     environ := environ w;
     clock := clock w;
     history := history w ++ [ev] |}.

(** The Registry: what a running engine holds as active provider and as
    active mode. *)
Definition registry (w : World) : option (PyObject * PyObject) :=
  (fun pg => (Engine.primary_provider (Engine.config pg),
              Engine.mystical_mode (Engine.config pg))) <$> primal_genesis w.

Definition is_generate (ev : Event) : bool :=
  match ev with GenerateCalled _ _ _ => true | _ => false end.

(** Number of calls of the backend's generation so far. *)
Definition adapter_calls (w : World) : nat :=
  length (List.filter is_generate (history w)).

(** ** Computations that raise *)

(** A computation runs on the process state and ends in a value or in an
    exception; the state it leaves is kept in both cases. *)
Definition M (A : Type) : Type := World -> World * (Exception + A).

#[global] Instance M_ret : MRet M := fun A a w => (w, inr a).

#[global] Instance M_bind : MBind M := fun A B k m w =>
  match m w with
  | (w', inl e) => (w', inl e)
  | (w', inr a) => k a w'
  end.

Definition raise {A : Type} (e : Exception) : M A := fun w => (w, inl e).

(** [try: body except <classes> as e: handler e]; an exception the clause
    does not name goes on to the caller. *)
Definition try_except {A : Type} (body : M A) (names : Exception -> bool)
    (handler : Exception -> M A) : M A := fun w =>
  match body w with
  | (w', inl e) => if names e then handler e w' else (w', inl e)
  | (w', inr a) => (w', inr a)
  end.

Definition is_ValueError (e : Exception) : bool :=
  match e with ValueError _ => true | _ => false end.

(** Every class above derives from [Exception]. *)
Definition is_Exception (e : Exception) : bool := true.

Definition is_WebSocketDisconnect (e : Exception) : bool :=
  match e with WebSocketDisconnect => true | _ => false end.

(** ** Primitive effects *)

(** [PrimalGenesisProvider(s)] and [MysticalMode(s)]. *)
Definition provider_of_value (s : string) : M PrimalGenesisProvider.t :=
  match PrimalGenesisProvider.of_value s with
  | Some p => mret p
  | None => raise (ValueError s)
  end.

Definition mode_of_value (s : string) : M MysticalMode.t :=
  match MysticalMode.of_value s with
  | Some m => mret m
  | None => raise (ValueError s)
  end.

(** [if not primal_genesis: raise HTTPException(status_code=500, ...)]. *)
Definition check_initialized : M unit := fun w =>
  match primal_genesis w with
  | Some _ => (w, inr tt)
  | None => (w, inl (HTTPException 500 (Text "Primal Genesis Engine not initialized")))
  end.

(** A method call on the global [primal_genesis]; on [None] Python raises
    [AttributeError]. *)
Definition engine_read {A : Type} (f : Engine.PrimalGenesisModel -> A) : M A := fun w =>
  match primal_genesis w with
  | Some pg => (w, inr (f pg))
  | None => (w, inl (AttributeError "NoneType"))
  end.

Definition engine_update (f : Engine.PrimalGenesisModel -> Engine.PrimalGenesisModel)
    (ev : Event) : M unit := fun w =>
  match primal_genesis w with
  | Some pg => (log_event ev (with_engine (Some (f pg)) w), inr tt)
  | None => (w, inl (AttributeError "NoneType"))
  end.

(** [primal_genesis.switch_provider(provider)], with the member that
    [PrimalGenesisProvider(...)] returned. *)
Definition engine_switch_provider (p : PrimalGenesisProvider.t) : M unit :=
  engine_update (Engine.switch_provider (PyProvider p)) (ProviderSwitched p).

(** [primal_genesis.switch_mystical_mode(mode)], with the member that
    [MysticalMode(...)] returned. *)
Definition engine_switch_mystical_mode (m : MysticalMode.t) : M unit :=
  engine_update (Engine.switch_mystical_mode (PyMode m)) (ModeSwitched m).

(** [d[k]] on a dict: [KeyError] when the key is missing. *)
Definition getitem {K V : Type} `{Countable K} (d : gmap K V) (k : K)
    (shown : string) : M V :=
  match d !! k with
  | Some v => mret v
  | None => raise (KeyError shown)
  end.

Fixpoint contains (c : Ascii.ascii) (s : string) : bool :=
  match s with
  | EmptyString => false
  | String c' s' => if Ascii.eqb c c' then true else contains c s'
  end.

(** [os.environ[key] = value]: [putenv] refuses a NUL byte in either
    string, an empty name and a name with ['=']; otherwise the variable is
    set. *)
Definition environ_setitem (key value : string) : M unit := fun w =>
  if contains Ascii.zero key || contains Ascii.zero value
  then (w, inl (ValueError "embedded null byte"))
  else if negb (truthy key) || contains "="%char key
  then (w, inl (ValueError "illegal environment variable name"))
  else (log_event (EnvironSet key value) (with_environ (<[key := value]> (environ w)) w),
        inr tt).

(** [datetime.now().isoformat()]: the reading of the clock (its rendering
    as text is not modelled). *)
Definition now : M Z := fun w => (w, inr (clock w)).

(** ** Response bodies *)

Inductive Body : Type :=
| TrafficBody (success : bool) (traffic_pattern metadata : Json) (timestamp : Z)
| ProviderBody (success : bool) (message current_provider : string) (timestamp : Z)
| ModeBody (success : bool) (message current_mode : string) (timestamp : Z)
| StatusBody (status : Engine.SovereignStatus)
| ProtocolBody (success : bool) (message : string) (timestamp : Z).

(** What the framework sends for a handler's outcome: 200 with the returned
    mapping, the status and detail of a raised [HTTPException], and 500 for
    any other exception. *)
Inductive HttpResponse : Type :=
| Http (status : Z) (payload : Body + Detail).

Definition respond (r : Exception + Body) : HttpResponse :=
  match r with
  | inr b => Http 200 (inl b)
  | inl (HTTPException sc d) => Http sc (inr d)
  | inl _ => Http 500 (inr (Text "Internal Server Error"))
  end.

Definition status_of (r : HttpResponse) : Z :=
  match r with Http sc _ => sc end.

(** ** The request handlers *)

Section Handlers.

(** [PrimalGenesisModel.generate_traffic_pattern], the generation backend:
    under the engine's current state it returns a response or raises, and
    it does not write the configuration.  It is external, so it is a
    parameter. *)
Variable generate_traffic_pattern :
  Engine.PrimalGenesisModel -> string -> string -> Z -> Exception + Engine.AIResponse.

(** [json.loads]; [None] is [JSONDecodeError]. *)
Variable json_loads : string -> option Json.

(** [PrimalGenesisModel.initiate_sovereign_protocol]: it returns its signal
    or raises, and leaves the engine in a state of its choice.  External as
    well. *)
Variable sovereign_protocol :
  Engine.PrimalGenesisModel -> Engine.PrimalGenesisModel * (Exception + string).

(** [await primal_genesis.generate_traffic_pattern(...)]. *)
Definition engine_generate (target_url behavior_type : string) (intensity : Z)
    : M Engine.AIResponse := fun w =>
  match primal_genesis w with
  | Some pg =>
      (log_event (GenerateCalled target_url behavior_type intensity) w,
       generate_traffic_pattern pg target_url behavior_type intensity)
  | None => (w, inl (AttributeError "NoneType"))
  end.

(** [primal_genesis.initiate_sovereign_protocol()]. *)
Definition engine_initiate : M string := fun w =>
  match primal_genesis w with
  | Some pg =>
      (with_engine (Some (sovereign_protocol pg).1) w, (sovereign_protocol pg).2)
  | None => (w, inl (AttributeError "NoneType"))
  end.

Definition loads (doc : string) : M Json :=
  match json_loads doc with
  | Some j => mret j
  | None => raise (JSONDecodeError doc)
  end.

(** [POST /api/generate-traffic] *)
Definition generate_traffic (request : TrafficRequest.t) : M Body :=
  try_except
    (check_initialized;;
     (* Switch provider if specified *)
     match TrafficRequest.provider request with
     | Some s =>
         if truthy s then
           try_except
             (provider ← provider_of_value s;
              engine_switch_provider provider)
             is_ValueError
             (fun _ => raise (HTTPException 400 (Text ("Invalid provider: " +:+ s))))
         else mret tt
     | None => mret tt
     end;;
     (* Switch mystical mode if specified *)
     match TrafficRequest.mystical_mode request with
     | Some s =>
         if truthy s then
           try_except
             (mode ← mode_of_value s;
              engine_switch_mystical_mode mode)
             is_ValueError
             (fun _ => raise (HTTPException 400 (Text ("Invalid mystical mode: " +:+ s))))
         else mret tt
     | None => mret tt
     end;;
     (* Generate traffic pattern *)
     response ← engine_generate (TrafficRequest.target_url request)
                                (TrafficRequest.behavior_type request)
                                (TrafficRequest.intensity request);
     pattern ← loads (Engine.content response);
     ts ← now;
     mret (TrafficBody true pattern (Engine.metadata response) ts))
    is_Exception
    (fun e => raise (HTTPException 500 (StrOf e))).

(** [POST /api/switch-provider] *)
Definition switch_provider (config : ProviderConfig.t) : M Body :=
  try_except
    (check_initialized;;
     (* Set API key if provided *)
     (if truthy (ProviderConfig.api_key config) then
        table ← engine_read Engine.provider_configs;
        p ← provider_of_value (ProviderConfig.provider config);
        entry ← getitem table p (PrimalGenesisProvider.value p);
        name ← getitem entry "api_key_env" "api_key_env";
        environ_setitem name (ProviderConfig.api_key config)
      else mret tt);;
     (* Switch provider *)
     provider ← provider_of_value (ProviderConfig.provider config);
     engine_switch_provider provider;;
     ts ← now;
     mret (ProviderBody true
             ("Switched to " +:+ ProviderConfig.provider config +:+ " provider")
             (ProviderConfig.provider config) ts))
    is_Exception
    (fun e => raise (HTTPException 500 (StrOf e))).

(** [POST /api/switch-mode] *)
Definition switch_mystical_mode (request : MysticalModeRequest.t) : M Body :=
  try_except
    (check_initialized;;
     mode ← mode_of_value (MysticalModeRequest.mode request);
     engine_switch_mystical_mode mode;;
     ts ← now;
     mret (ModeBody true
             ("Switched to " +:+ MysticalModeRequest.mode request +:+ " mystical mode")
             (MysticalModeRequest.mode request) ts))
    is_Exception
    (fun e => raise (HTTPException 500 (StrOf e))).

(** [GET /api/sovereign-status] *)
Definition get_sovereign_status : M Body :=
  try_except
    (check_initialized;;
     status ← engine_read Engine.get_sovereign_status;
     mret (StatusBody status))
    is_Exception
    (fun e => raise (HTTPException 500 (StrOf e))).

(** [POST /api/initiate-sovereign-protocol] *)
Definition initiate_sovereign_protocol : M Body :=
  try_except
    (check_initialized;;
     signal ← engine_initiate;
     ts ← now;
     mret (ProtocolBody true signal ts))
    is_Exception
    (fun e => raise (HTTPException 500 (StrOf e))).

End Handlers.

(** ** Startup *)

Definition default_config : Engine.PrimalGenesisConfig :=
  {| Engine.primary_provider := PyProvider PrimalGenesisProvider.MISTRAL;
     Engine.mystical_mode := PyMode MysticalMode.SOVEREIGN;
     Engine.enable_phantom_analytics := true;
     Engine.enable_shadow_tendrils := true;
     Engine.quantum_entropy_level := 42;
     Engine.ethereal_frequency := (144 # 1)%Q |}.

Section Startup.

(** [PrimalGenesisModel(config)], the constructor of the engine: external,
    it returns an engine or raises. *)
Variable new_model : Engine.PrimalGenesisConfig -> Exception + Engine.PrimalGenesisModel.

Definition construct (c : Engine.PrimalGenesisConfig) : M Engine.PrimalGenesisModel :=
  fun w => (w, new_model c).

(** [primal_genesis = ...] on the global. *)
Definition assign_engine (pg : Engine.PrimalGenesisModel) : M unit :=
  fun w => (with_engine (Some pg) w, inr tt).

(** The startup hook: the global is assigned only when the constructor
    returned; its exception is raised again. *)
Definition startup_event : M unit :=
  try_except
    (pg ← construct default_config;
     assign_engine pg)
    is_Exception
    (fun e => raise e).

End Startup.

(** ** The live-status channel *)

(** The [data] member of a pushed message: the status mapping, or [{}]. *)
Inductive StatusData : Type :=
| EmptyObject
| StatusObject (status : Engine.SovereignStatus).

(** The message [json.dumps] renders for [send_text]. *)
Record Frame := {
  type : string;
  data : StatusData;
  timestamp : Z
}.

Definition status_update (w : World) : Frame :=
  {| type := "status_update";
     data := match primal_genesis w with
             | Some pg => StatusObject (Engine.get_sovereign_status pg)
             | None => EmptyObject
             end;
     timestamp := clock w |}.

(** How an [await] ends: the transport, or the event loop, decides. *)
Inductive Outcome : Type :=
| Completes
| Raises (e : Exception).

(** Where the handler coroutine of one connection stands: the [await] it
    is suspended in.  The argument of [send_text] is evaluated before the
    handler is suspended in the call, so a handler that is sending holds
    the message it built. *)
Inductive Pc : Type :=
| Accepting                (* in [await websocket.accept()] *)
| Sending (message : Frame) (* in [await websocket.send_text(message)] *)
| Sleeping (until : Z)     (* in [await asyncio.sleep(30)] *)
| Returned                 (* left through [except WebSocketDisconnect] *)
| Failed (e : Exception).  (* left by an exception no clause names *)

(** A connection: its handler and the messages its observer has received,
    oldest first. *)
Record Conn := {
  pc : Pc;
  inbox : list Frame
}.

Definition at_pc (p : Pc) (c : Conn) : Conn := {| pc := p; inbox := inbox c |}.

(** [l.remove(x)]: the first occurrence goes; [None] is the [ValueError]
    of a missing element. *)
Fixpoint list_remove (x : WebSocket) (l : list WebSocket) : option (list WebSocket) :=
  match l with
  | [] => None
  | y :: l' => if decide (x = y) then Some l'
               else (fun r => y :: r) <$> list_remove x l'
  end.

Definition sleep_seconds : Z := 30.

(** [WebSocket.send] of the web framework on an accepted connection, under
    [send_text]: an [OSError] of the transport is raised to the handler as
    [WebSocketDisconnect]; any other outcome is passed on. *)
Definition send_text (o : Outcome) : Outcome :=
  match o with
  | Raises (OSError _) => Raises WebSocketDisconnect
  | _ => o
  end.

(** An exception raised inside the [try]: the clause
    [except WebSocketDisconnect] takes the connection out of the list and
    the handler returns; any other exception leaves the handler as it
    is. *)
Definition leave (websocket : WebSocket) (e : Exception) (c : Conn) (w : World)
    : World * Conn :=
  if is_WebSocketDisconnect e then
    match list_remove websocket (active_connections w) with
    | Some l => (with_connections l w, at_pc Returned c)
    | None => (w, at_pc (Failed (ValueError "list.remove(x): x not in list")) c)
    end
  else (w, at_pc (Failed e) c).

(** The handler of [/ws], one resumption at a time: from the [await] it is
    suspended in to the next one.  [o] is the outcome of the pending
    [await].  After [accept] the connection is appended and the first
    message is built; a message is received when its send completes, and
    the sleep starts then; after the sleep the next message is built, from
    the state and the clock of that moment.  A sleep completes only when
    its time has come, and a finished handler is never resumed. *)
Definition websocket_endpoint (websocket : WebSocket) (o : Outcome) (c : Conn)
    (w : World) : option (World * Conn) :=
  match pc c with
  | Accepting =>
      match o with
      | Completes =>
          let w' := with_connections (active_connections w ++ [websocket]) w in
          Some (w', at_pc (Sending (status_update w')) c)
      | Raises e => Some (w, at_pc (Failed e) c)
      end
  | Sending message =>
      match send_text o with
      | Completes =>
          Some (w, {| pc := Sleeping (clock w + sleep_seconds);
                      inbox := inbox c ++ [message] |})
      | Raises e => Some (leave websocket e c w)
      end
  | Sleeping until =>
      match o with
      | Completes =>
          if until <=? clock w then Some (w, at_pc (Sending (status_update w)) c)
          else None
      | Raises e => Some (leave websocket e c w)
      end
  | Returned | Failed _ => None
  end.

(** The states of the broadcaster's per-connection machine. *)
Inductive Phase : Set := Joining | Active | Closed.

Definition phase (c : Conn) : Phase :=
  match pc c with
  | Accepting => Joining
  | Sending _ | Sleeping _ => Active
  | Returned | Failed _ => Closed
  end.

(** ** The running process *)

Inductive HttpRequest : Type :=
| PostGenerateTraffic (request : TrafficRequest.t)
    (backend : Engine.PrimalGenesisModel -> string -> string -> Z ->
               Exception + Engine.AIResponse)
| PostSwitchProvider (config : ProviderConfig.t)
| PostSwitchMode (request : MysticalModeRequest.t)
| GetSovereignStatus
| PostInitiateSovereignProtocol
    (protocol : Engine.PrimalGenesisModel ->
                Engine.PrimalGenesisModel * (Exception + string)).

(** What can happen to the process: a client opens [/ws], the event loop
    resumes a handler, time passes, a request is served. *)
Inductive Action : Type :=
| Connect (ws : WebSocket)
| Resume (ws : WebSocket) (o : Outcome)
| Tick (d : Z)
| Serve (r : HttpRequest).

Record System := {
  world : World;
  conns : gmap WebSocket Conn;
  responses : list HttpResponse
}.

Section Process.

Variable json_loads : string -> option Json.

Definition handle (r : HttpRequest) : M Body :=
  match r with
  | PostGenerateTraffic request backend => generate_traffic backend json_loads request
  | PostSwitchProvider config => switch_provider config
  | PostSwitchMode request => switch_mystical_mode request
  | GetSovereignStatus => get_sovereign_status
  | PostInitiateSovereignProtocol protocol => initiate_sovereign_protocol protocol
  end.

(** One action; [None] when it cannot happen in this state. *)
Definition step (a : Action) (s : System) : option System :=
  match a with
  | Connect ws =>
      match conns s !! ws with
      | None => Some {| world := world s;
                        conns := <[ws := {| pc := Accepting; inbox := [] |}]> (conns s);
                        responses := responses s |}
      | Some _ => None
      end
  | Resume ws o =>
      match conns s !! ws with
      | Some c =>
          match websocket_endpoint ws o c (world s) with
          | Some (w', c') => Some {| world := w';
                                     conns := <[ws := c']> (conns s);
                                     responses := responses s |}
          | None => None
          end
      | None => None
      end
  | Tick d =>
      if 0 <=? d
      then Some {| world := with_clock (clock (world s) + d) (world s);
                   conns := conns s;
                   responses := responses s |}
      else None
  | Serve r =>
      let out := handle r (world s) in
      Some {| world := out.1;
              conns := conns s;
              responses := responses s ++ [respond out.2] |}
  end.

Fixpoint run (acts : list Action) (s : System) : option System :=
  match acts with
  | [] => Some s
  | a :: acts' =>
      match step a s with
      | Some s' => run acts' s'
      | None => None
      end
  end.

End Process.

(** * Properties *)

(** ** Vocabulary of the statements *)

(** The bounded range of the intensity. *)
Definition intensity_in_range (i : Z) : bool := (1 <=? i) && (i <=? 10).

(** An override a handler acts on: present and not the empty string. *)
Definition override (o : option string) : option string :=
  match o with
  | Some s => if truthy s then Some s else None
  | None => None
  end.

Definition failed {A : Type} (r : Exception + A) : Prop := exists e, r = inl e.

(** The error of a response was built from [cause]. *)
Definition caused_by (cause : Exception) (r : Exception + Body) : Prop :=
  exists sc, r = inl (HTTPException sc (StrOf cause)).

Definition active_provider (w : World) : option PyObject :=
  fst <$> registry w.

Definition active_mode (w : World) : option PyObject :=
  snd <$> registry w.

(** The request is refused as a client error, the backend is not called and
    the Registry keeps its provider and mode. *)
Definition rejects_intensity
    (backend : Engine.PrimalGenesisModel -> string -> string -> Z ->
               Exception + Engine.AIResponse)
    (json_loads : string -> option Json) (request : TrafficRequest.t) (w : World) : Prop :=
  let out := generate_traffic backend json_loads request w in
  status_of (respond out.2) = 400 /\
  adapter_calls out.1 = adapter_calls w /\
  registry out.1 = registry w.

(** The provider override of a request is refused: it is there and names no
    member.  Likewise for the mode. *)
Definition provider_refused (request : TrafficRequest.t) : Prop :=
  exists s, override (TrafficRequest.provider request) = Some s /\
            PrimalGenesisProvider.of_value s = None.

Definition mode_refused (request : TrafficRequest.t) : Prop :=
  exists s, override (TrafficRequest.mystical_mode request) = Some s /\
            MysticalMode.of_value s = None.

(** The member an accepted override names, if there is an override. *)
Definition provider_named (request : TrafficRequest.t) : option PrimalGenesisProvider.t :=
  override (TrafficRequest.provider request) ≫= PrimalGenesisProvider.of_value.

Definition mode_named (request : TrafficRequest.t) : option MysticalMode.t :=
  override (TrafficRequest.mystical_mode request) ≫= MysticalMode.of_value.

(** The events the accepted overrides of a request leave, in order. *)
Definition override_events (request : TrafficRequest.t) : list Event :=
  match provider_named request with Some p => [ProviderSwitched p] | None => [] end ++
  match mode_named request with Some m => [ModeSwitched m] | None => [] end.

(** The request with its overrides taken out. *)
Definition without_overrides (request : TrafficRequest.t) : TrafficRequest.t :=
  {| TrafficRequest.target_url := TrafficRequest.target_url request;
     TrafficRequest.behavior_type := TrafficRequest.behavior_type request;
     TrafficRequest.intensity := TrafficRequest.intensity request;
     TrafficRequest.provider := None;
     TrafficRequest.mystical_mode := None |}.

(** The state once the accepted overrides of a request are committed:
    provider first, mode second. *)
Definition commit_provider (request : TrafficRequest.t) (w : World) : World :=
  match provider_named request with
  | Some p => (engine_switch_provider p w).1
  | None => w
  end.

Definition commit_mode (request : TrafficRequest.t) (w : World) : World :=
  match mode_named request with
  | Some m => (engine_switch_mystical_mode m w).1
  | None => w
  end.

(** The engine once they are. *)
Definition engine_after (request : TrafficRequest.t) (pg : Engine.PrimalGenesisModel)
    : Engine.PrimalGenesisModel :=
  let pg1 := match provider_named request with
             | Some p => Engine.switch_provider (PyProvider p) pg
             | None => pg
             end in
  match mode_named request with
  | Some m => Engine.switch_mystical_mode (PyMode m) pg1
  | None => pg1
  end.

(** The name of the environment variable that holds a provider's
    credential: [provider_configs[p]["api_key_env"]]. *)
Definition api_key_env (pg : Engine.PrimalGenesisModel) (p : PrimalGenesisProvider.t)
    : option string :=
  Engine.provider_configs pg !! p ≫= (fun entry => entry !! "api_key_env").

(** [os.environ] refuses the assignment. *)
Definition putenv_refuses (key value : string) : bool :=
  (contains Ascii.zero key || contains Ascii.zero value) ||
  (negb (truthy key) || contains "="%char key).

(** The state after a provider switch without credential. *)
Definition switched (p : PrimalGenesisProvider.t) (pg : Engine.PrimalGenesisModel)
    (w : World) : World :=
  log_event (ProviderSwitched p)
    (with_engine (Some (Engine.switch_provider (PyProvider p) pg)) w).

(** The same with the credential installed first. *)
Definition installed (name key : string) (w : World) : World :=
  log_event (EnvironSet name key) (with_environ (<[name := key]> (environ w)) w).

Definition provider_body (config : ProviderConfig.t) (w : World) : Body :=
  ProviderBody true
    ("Switched to " +:+ ProviderConfig.provider config +:+ " provider")
    (ProviderConfig.provider config) (clock w).

Definition mode_body (request : MysticalModeRequest.t) (w : World) : Body :=
  ModeBody true
    ("Switched to " +:+ MysticalModeRequest.mode request +:+ " mystical mode")
    (MysticalModeRequest.mode request) (clock w).

(** What the framework answers while there is no engine. *)
Definition not_initialized : HttpResponse :=
  Http 500 (inr (StrOf (HTTPException 500 (Text "Primal Genesis Engine not initialized")))).

(** What no handler of a request does to the process: it leaves the
    connection list and the clock alone and never unsets the engine. *)
Record frame (w w' : World) : Prop := {
  frame_connections : active_connections w' = active_connections w;
  frame_clock : clock w' = clock w;
  frame_engine : is_Some (primal_genesis w) -> is_Some (primal_genesis w')
}.

(** A computation keeps a relation between the state it starts from and the
    state it leaves. *)
Definition keeps {A : Type} (R : World -> World -> Prop) (m : M A) : Prop :=
  forall w, R w (m w).1.

(** A computation that neither reads nor writes the connection list. *)
Definition blind {A : Type} (m : M A) : Prop :=
  forall l w, m (with_connections l w) = (with_connections l (m w).1, (m w).2).

(** The engine holds a member of each enumeration, as its provider and as
    its mode. *)
Definition engine_valid (pg : Engine.PrimalGenesisModel) : Prop :=
  (exists p, Engine.primary_provider (Engine.config pg) = PyProvider p) /\
  (exists m, Engine.mystical_mode (Engine.config pg) = PyMode m).

(** There is an engine and it does. *)
Definition registry_held (w : World) : Prop :=
  exists pg, primal_genesis w = Some pg /\ engine_valid pg.

(** The Registry invariant, also as the status handler shows it: it answers,
    and the provider and mode it reports are values of the enumerations. *)
Definition registry_valid (w : World) : Prop :=
  registry_held w /\
  exists st, (get_sovereign_status w).2 = inr (StatusBody st) /\
    Engine.st_current_provider st ∈ PrimalGenesisProvider.values /\
    Engine.st_mystical_mode st ∈ MysticalMode.values.

(** A state leaves the Registry held if it was. *)
Definition registry_kept (w w' : World) : Prop :=
  registry_held w -> registry_held w'.

(** The protocol method of the engine is external.  It is within its
    contract when it leaves the provider and the mode of the engine alone;
    an action is when the protocol it brings is. *)
Definition protocol_within_contract
    (protocol : Engine.PrimalGenesisModel ->
                Engine.PrimalGenesisModel * (Exception + string)) : Prop :=
  forall pg,
    Engine.primary_provider (Engine.config (protocol pg).1) =
      Engine.primary_provider (Engine.config pg) /\
    Engine.mystical_mode (Engine.config (protocol pg).1) =
      Engine.mystical_mode (Engine.config pg).

Definition request_within_contract (r : HttpRequest) : Prop :=
  match r with
  | PostInitiateSovereignProtocol protocol => protocol_within_contract protocol
  | _ => True
  end.

Definition within_contract (a : Action) : Prop :=
  match a with
  | Serve r => request_within_contract r
  | _ => True
  end.

(** ** Vocabulary of the live-status statements *)

(** The messages an observer has received. *)
Definition inbox_of (ws : WebSocket) (s : System) : list Frame :=
  match conns s !! ws with
  | Some c => inbox c
  | None => []
  end.

Definition phase_of (ws : WebSocket) (s : System) : option Phase :=
  phase <$> conns s !! ws.

(** A client subscribes and its handler gets through [accept]. *)
Definition subscribe (ws : WebSocket) : list Action :=
  [Connect ws; Resume ws Completes].

(** One cycle of the loop, run as soon as it can: the send completes, the
    30 units of sleep pass, the handler wakes up and builds the next
    message. *)
Definition cycle (ws : WebSocket) : list Action :=
  [Resume ws Completes; Tick sleep_seconds; Resume ws Completes].

Fixpoint cycles (ws : WebSocket) (n : nat) : list Action :=
  match n with
  | O => []
  | S n' => cycle ws ++ cycles ws n'
  end.


(** The snapshot of a state, had it been taken at time [t]. *)
Definition snapshot_at (w : World) (t : Z) : Frame :=
  status_update (with_clock t w).

(** The snapshots of [n] cycles that start at time [t]. *)
Definition snapshots (w : World) (t : Z) (n : nat) : list Frame :=
  (fun k : nat => snapshot_at w (t + sleep_seconds * Z.of_nat k)) <$> seq 0 n.

(** No connection is listed twice, the listed ones are known and past
    [accept], and every active one is listed. *)
Record connections_wf (s : System) : Prop := {
  wf_NoDup : NoDup (active_connections (world s));
  wf_listed : forall ws, ws ∈ active_connections (world s) ->
    exists c, conns s !! ws = Some c /\ pc c <> Accepting;
  wf_active : forall ws c, conns s !! ws = Some c -> phase c = Active ->
    ws ∈ active_connections (world s)
}.

(** A failure of the delivery, as it reaches [send_text]: the [OSError] of
    the transport that cannot deliver, or the disconnect signal itself. *)
Definition send_failure (e : Exception) : bool :=
  match e with
  | OSError _ | WebSocketDisconnect => true
  | _ => false
  end.

(** The connection [B] as its next resumption with outcome [o] leaves it. *)
Definition next_conn (json_loads : string -> option Json) (B : WebSocket) (o : Outcome)
    (s : System) : option Conn :=
  step json_loads (Resume B o) s ≫= fun t => conns t !! B.

Definition system_0 (w : World) : System :=
  {| world := w; conns := ∅; responses := [] |}.

(** ** Concrete states and collaborators *)

Definition engine_0 : Engine.PrimalGenesisModel :=
  {| Engine.config := default_config;
     Engine.provider_configs :=
       {[ PrimalGenesisProvider.OPENAI := {[ "api_key_env" := "OPENAI_API_KEY" ]} ]};
     Engine.sovereign_awakened := true |}.

Definition world_0 : World :=
  {| primal_genesis := Some engine_0;
     active_connections := [];
     environ := ∅;
     clock := 0;
     history := [] |}.

Definition backend_ok (pg : Engine.PrimalGenesisModel) (target_url behavior_type : string)
    (intensity : Z) : Exception + Engine.AIResponse :=
  inr {| Engine.content := "{}"; Engine.metadata := JObj [] |}.

Definition backend_down (pg : Engine.PrimalGenesisModel) (target_url behavior_type : string)
    (intensity : Z) : Exception + Engine.AIResponse :=
  inl (BackendFailure "unreachable").

Definition loads_object (doc : string) : option Json :=
  if String.eqb doc "{}" then Some (JObj []) else None.

Definition request_of (i : Z) (p m : option string) : TrafficRequest.t :=
  {| TrafficRequest.target_url := "https://example.com";
     TrafficRequest.behavior_type := "organic";
     TrafficRequest.intensity := i;
     TrafficRequest.provider := p;
     TrafficRequest.mystical_mode := m |}.

(** A constructor of the engine that succeeds: the configuration it is
    given, the credential table of [engine_0]. *)
Definition new_engine_0 (c : Engine.PrimalGenesisConfig)
    : Exception + Engine.PrimalGenesisModel :=
  inr {| Engine.config := c;
         Engine.provider_configs := Engine.provider_configs engine_0;
         Engine.sovereign_awakened := true |}.

(** Two observers, both subscribed and in the send of their first
    snapshot. *)
Definition two_observers : System :=
  {| world := with_connections [1%nat; 2%nat] world_0;
     conns := {[ 1%nat := {| pc := Sending (status_update world_0); inbox := [] |};
                 2%nat := {| pc := Sending (status_update world_0); inbox := [] |} ]};
     responses := [] |}.

(** A day in the life of the process: refused and accepted requests, a
    failing backend, an observer. *)
Definition busy_day : list Action :=
  [ Serve (PostSwitchProvider
             {| ProviderConfig.provider := "llama"; ProviderConfig.api_key := "" |});
    Serve (PostGenerateTraffic (request_of 11 (Some "gemini") (Some "bogus")) backend_down);
    Connect 1%nat;
    Resume 1%nat Completes;
    Serve (PostSwitchMode {| MysticalModeRequest.mode := "ethereal" |});
    Resume 1%nat Completes;
    Tick 45;
    Serve (PostGenerateTraffic (request_of 5 None None) backend_down);
    Resume 1%nat (Raises WebSocketDisconnect);
    Serve GetSovereignStatus ].

(** ** Vocabulary of the further properties *)

(** The request as the generation handler reads it: an empty override
    counts as none. *)
Definition effective (request : TrafficRequest.t) : TrafficRequest.t :=
  {| TrafficRequest.target_url := TrafficRequest.target_url request;
     TrafficRequest.behavior_type := TrafficRequest.behavior_type request;
     TrafficRequest.intensity := TrafficRequest.intensity request;
     TrafficRequest.provider := override (TrafficRequest.provider request);
     TrafficRequest.mystical_mode := override (TrafficRequest.mystical_mode request) |}.

(** The environment is the same in both states. *)
Definition same_environ (w w' : World) : Prop := environ w' = environ w.

(** The backend has been called the same number of times in both states. *)
Definition same_calls (w w' : World) : Prop := adapter_calls w' = adapter_calls w.

(** The action serves a generation request that gets to the backend: there
    is an engine and no override of the request is refused. *)
Definition calls_backend (a : Action) (w : World) : Prop :=
  exists request backend,
    a = Serve (PostGenerateTraffic request backend) /\
    is_Some (primal_genesis w) /\
    ~ provider_refused request /\ ~ mode_refused request.

(** The pace of one observer at time [now]: consecutive messages are at
    least 30 apart, and the handler stands where the last message allows:
    nothing is received before [accept] is through, the message being sent
    is stamped 30 or more after the last and not in the future, a sleep
    ends 30 or more after the last. *)
Record paced (now : Z) (c : Conn) : Prop := {
  paced_gaps : forall i f g, inbox c !! i = Some f -> inbox c !! S i = Some g ->
    timestamp f + 30 <= timestamp g;
  paced_last : forall f, last (inbox c) = Some f ->
    match pc c with
    | Accepting => False
    | Sending g => timestamp f + 30 <= timestamp g
    | Sleeping until => timestamp f + 30 <= until
    | Returned | Failed _ => True
    end;
  paced_pending : forall g, pc c = Sending g -> timestamp g <= now
}.

Definition all_paced (s : System) : Prop :=
  forall ws c, conns s !! ws = Some c -> paced (clock (world s)) c.

(** The handler, suspended at [p], is raised the disconnect signal inside
    its loop by the outcome [o]: in its send, where a failure of the
    delivery reaches it as that signal, or in its sleep. *)
Definition leaves_on (p : Pc) (o : Outcome) : Prop :=
  match p with
  | Sending _ => exists e, o = Raises e /\ send_failure e = true
  | Sleeping _ => o = Raises WebSocketDisconnect
  | _ => False
  end.

(** A connection that left through the disconnect clause is not listed. *)
Definition returned_unlisted (s : System) : Prop :=
  forall ws c, conns s !! ws = Some c -> pc c = Returned ->
    ws ∉ active_connections (world s).

(** A constructor of the engine that raises. *)
Definition new_engine_fails (c : Engine.PrimalGenesisConfig)
    : Exception + Engine.PrimalGenesisModel :=
  inl (BackendFailure "no engine").

(** An observer that is woken late: its second send comes 45 after the
    first. *)
Definition late_schedule : list Action :=
  [ Connect 7%nat; Resume 7%nat Completes; Resume 7%nat Completes;
    Tick 45; Resume 7%nat Completes; Resume 7%nat Completes ].

(** ** Proof automation *)

#[global] Arguments PrimalGenesisProvider.of_value : simpl never.
#[global] Arguments MysticalMode.of_value : simpl never.
#[global] Arguments PrimalGenesisProvider.value : simpl never.
#[global] Arguments MysticalMode.value : simpl never.
#[global] Arguments truthy : simpl never.

Ltac unfold_handlers :=
  unfold generate_traffic, switch_provider, switch_mystical_mode, get_sovereign_status,
    try_except, check_initialized, engine_switch_provider, engine_switch_mystical_mode,
    engine_update, engine_read, engine_generate, loads, now, provider_of_value,
    mode_of_value, getitem, environ_setitem, raise, mbind, M_bind, mret, M_ret in *.

(** ** The generation handler *)

Lemma adapter_calls_log_event ev w :
  adapter_calls (log_event ev w) =
  (if is_generate ev then S (adapter_calls w) else adapter_calls w).
Proof.
  unfold adapter_calls, log_event; cbn.
  rewrite List.filter_app, length_app; cbn.
  destruct (is_generate ev); cbn; lia.
Qed.

Lemma override_none_truthy o : override o = None -> truthy_opt o = false.
Proof. destruct o as [s|]; cbn; [destruct (truthy s)|]; congruence. Qed.

(** Without overrides the handler goes straight to the backend. *)
Lemma generate_traffic_plain backend json_loads request w pg :
  primal_genesis w = Some pg ->
  override (TrafficRequest.provider request) = None ->
  override (TrafficRequest.mystical_mode request) = None ->
  generate_traffic backend json_loads request w =
    (log_event (GenerateCalled (TrafficRequest.target_url request)
                  (TrafficRequest.behavior_type request)
                  (TrafficRequest.intensity request)) w,
     match backend pg (TrafficRequest.target_url request)
             (TrafficRequest.behavior_type request) (TrafficRequest.intensity request) with
     | inl e => inl (HTTPException 500 (StrOf e))
     | inr response =>
         match json_loads (Engine.content response) with
         | Some pattern => inr (TrafficBody true pattern (Engine.metadata response) (clock w))
         | None => inl (HTTPException 500 (StrOf (JSONDecodeError (Engine.content response))))
         end
     end).
Proof.
  intros Hpg Hp%override_none_truthy Hm%override_none_truthy. unfold_handlers.
  destruct request as [u b i p m]; cbn in *.
  rewrite Hpg.
  destruct p as [sp|], m as [sm|]; cbn in *; rewrite ?Hp, ?Hm; cbn; rewrite ?Hpg; cbn;
  repeat case_match; simplify_eq; reflexivity.
Qed.

Lemma generate_traffic_provider_refused backend json_loads request w pg s :
  primal_genesis w = Some pg ->
  override (TrafficRequest.provider request) = Some s ->
  PrimalGenesisProvider.of_value s = None ->
  generate_traffic backend json_loads request w =
    (w, inl (HTTPException 500
               (StrOf (HTTPException 400 (Text ("Invalid provider: " +:+ s)))))).
Proof.
  intros Hpg Hs Hv. unfold_handlers.
  destruct request as [u b i p m]; cbn in *. rewrite Hpg.
  destruct p as [sp|]; cbn in *; [|discriminate].
  destruct (truthy sp) eqn:Ht; [|discriminate]. simplify_eq.
  rewrite Hv. reflexivity.
Qed.

Lemma generate_traffic_mode_refused backend json_loads request w pg s :
  primal_genesis w = Some pg ->
  ~ provider_refused request ->
  override (TrafficRequest.mystical_mode request) = Some s ->
  MysticalMode.of_value s = None ->
  generate_traffic backend json_loads request w =
    (commit_provider request w,
     inl (HTTPException 500
            (StrOf (HTTPException 400 (Text ("Invalid mystical mode: " +:+ s)))))).
Proof.
  intros Hpg Hnr Hs Hv. unfold provider_refused, commit_provider, provider_named in *.
  unfold_handlers.
  destruct request as [u b i p m]; cbn in *. rewrite Hpg.
  destruct m as [sm|]; cbn in *; [|discriminate].
  destruct (truthy sm) eqn:Ht; [|discriminate]. simplify_eq.
  destruct p as [sp|]; cbn in *.
  - destruct (truthy sp) eqn:Htp; cbn.
    + destruct (PrimalGenesisProvider.of_value sp) as [p|] eqn:Hp; cbn.
      * rewrite ?Hpg; cbn. rewrite ?Hv. reflexivity.
      * exfalso. apply Hnr. eauto.
    + rewrite Hv. reflexivity.
  - rewrite Hv. reflexivity.
Qed.

Lemma generate_traffic_accepted backend json_loads request w pg :
  primal_genesis w = Some pg ->
  ~ provider_refused request ->
  ~ mode_refused request ->
  generate_traffic backend json_loads request w =
  generate_traffic backend json_loads (without_overrides request)
    (commit_mode request (commit_provider request w)).
Proof.
  intros Hpg Hnp Hnm.
  unfold provider_refused, mode_refused, commit_provider, commit_mode,
    provider_named, mode_named in *.
  unfold_handlers.
  destruct request as [u b i p m]; cbn in *. rewrite Hpg.
  destruct p as [sp|]; cbn in *.
  - destruct (truthy sp) eqn:Htp; cbn.
    + destruct (PrimalGenesisProvider.of_value sp) as [p|] eqn:Hp; cbn.
      2:{ exfalso. apply Hnp. eauto. }
      rewrite ?Hpg; cbn.
      destruct m as [sm|]; cbn in *; [|reflexivity].
      destruct (truthy sm) eqn:Htm; cbn; [|reflexivity].
      destruct (MysticalMode.of_value sm) as [m|] eqn:Hm; cbn; [reflexivity|].
      exfalso. apply Hnm. eauto.
    + destruct m as [sm|]; cbn in *; rewrite ?Hpg; cbn; [|reflexivity].
      destruct (truthy sm) eqn:Htm; cbn; rewrite ?Hpg; cbn; [|reflexivity].
      destruct (MysticalMode.of_value sm) as [m|] eqn:Hm; cbn; rewrite ?Hpg; cbn; [reflexivity|].
      exfalso. apply Hnm. eauto.
  - destruct m as [sm|]; cbn in *; rewrite ?Hpg; cbn; [|reflexivity].
    destruct (truthy sm) eqn:Htm; cbn; rewrite ?Hpg; cbn; [|reflexivity].
    destruct (MysticalMode.of_value sm) as [m|] eqn:Hm; cbn; rewrite ?Hpg; cbn; [reflexivity|].
    exfalso. apply Hnm. eauto.
Qed.

Lemma commit_provider_world request w pg :
  primal_genesis w = Some pg ->
  commit_provider request w =
    match provider_named request with
    | Some p => log_event (ProviderSwitched p)
                  (with_engine (Some (Engine.switch_provider (PyProvider p) pg)) w)
    | None => w
    end.
Proof.
  intros Hpg. unfold commit_provider, engine_switch_provider, engine_update.
  destruct (provider_named request); [rewrite Hpg|]; reflexivity.
Qed.

Lemma commit_mode_world request w pg :
  primal_genesis w = Some pg ->
  commit_mode request w =
    match mode_named request with
    | Some m => log_event (ModeSwitched m)
                  (with_engine (Some (Engine.switch_mystical_mode (PyMode m) pg)) w)
    | None => w
    end.
Proof.
  intros Hpg. unfold commit_mode, engine_switch_mystical_mode, engine_update.
  destruct (mode_named request); [rewrite Hpg|]; reflexivity.
Qed.

Lemma override_events_not_generate request :
  List.filter is_generate (override_events request) = [].
Proof.
  unfold override_events.
  destruct (provider_named request), (mode_named request); reflexivity.
Qed.

(** With no override refused the overrides are committed, the backend is
    called, and the answer is made of what it returns. *)
Lemma generate_traffic_served backend json_loads request w pg :
  primal_genesis w = Some pg ->
  ~ provider_refused request ->
  ~ mode_refused request ->
  let out := generate_traffic backend json_loads request w in
  primal_genesis out.1 = Some (engine_after request pg) /\
  history out.1 = history w ++ override_events request ++
    [GenerateCalled (TrafficRequest.target_url request)
       (TrafficRequest.behavior_type request) (TrafficRequest.intensity request)] /\
  out.2 =
    match backend (engine_after request pg) (TrafficRequest.target_url request)
            (TrafficRequest.behavior_type request) (TrafficRequest.intensity request) with
    | inl e => inl (HTTPException 500 (StrOf e))
    | inr response =>
        match json_loads (Engine.content response) with
        | Some pattern => inr (TrafficBody true pattern (Engine.metadata response) (clock w))
        | None => inl (HTTPException 500 (StrOf (JSONDecodeError (Engine.content response))))
        end
    end.
Proof.
  intros Hpg Hnp Hnm out. subst out.
  rewrite (generate_traffic_accepted _ _ _ _ _ Hpg Hnp Hnm).
  rewrite (commit_provider_world _ _ _ Hpg).
  unfold override_events, engine_after.
  destruct (provider_named request) as [p|].
  - erewrite commit_mode_world by reflexivity.
    destruct (mode_named request) as [m|];
      (erewrite generate_traffic_plain by reflexivity); cbn;
      rewrite <- ?app_assoc; auto.
  - rewrite (commit_mode_world _ _ _ Hpg).
    destruct (mode_named request) as [m|];
      (erewrite generate_traffic_plain by (reflexivity || exact Hpg)); cbn;
      rewrite <- ?app_assoc; auto.
Qed.

(** C1, amended: the generation handler has no check of the intensity.  On
    a running engine a request whose overrides, if any, are accepted calls
    the backend exactly once with the intensity it carries, whatever that
    is (outside 1..10 included); the Registry's provider and mode change
    only to what the request's own overrides name, so they stay as they
    were when it has none; the answer is 200 or 500, never a client
    error. *)
Theorem generate_traffic_no_intensity_check backend json_loads request w pg :
  primal_genesis w = Some pg ->
  ~ provider_refused request ->
  ~ mode_refused request ->
  let out := generate_traffic backend json_loads request w in
  history out.1 = history w ++ override_events request ++
    [GenerateCalled (TrafficRequest.target_url request)
       (TrafficRequest.behavior_type request) (TrafficRequest.intensity request)] /\
  adapter_calls out.1 = S (adapter_calls w) /\
  active_provider out.1 =
    match provider_named request with
    | Some p => Some (PyProvider p)
    | None => active_provider w
    end /\
  active_mode out.1 =
    match mode_named request with
    | Some m => Some (PyMode m)
    | None => active_mode w
    end /\
  (status_of (respond out.2) = 200 \/ status_of (respond out.2) = 500).
Proof.
  intros Hpg Hnp Hnm out.
  destruct (generate_traffic_served backend json_loads request w pg Hpg Hnp Hnm)
    as (Heng & Hhist & Hres).
  fold out in Heng, Hhist, Hres.
  split; [exact Hhist|]. split; [|split; [|split]].
  - unfold adapter_calls. rewrite Hhist, !List.filter_app, override_events_not_generate.
    cbn. rewrite length_app. cbn. lia.
  - unfold active_provider, registry. rewrite Heng, Hpg. unfold engine_after.
    destruct (provider_named request), (mode_named request); reflexivity.
  - unfold active_mode, registry. rewrite Heng, Hpg. unfold engine_after.
    destruct (provider_named request), (mode_named request); reflexivity.
  - rewrite Hres. repeat case_match; cbn; auto.
Qed.

Lemma generate_traffic_no_intensity_check_witness :
  let request := request_of 11 None None in
  let out := generate_traffic backend_ok loads_object request world_0 in
  primal_genesis world_0 = Some engine_0 /\
  intensity_in_range (TrafficRequest.intensity request) = false /\
  history out.1 = [GenerateCalled "https://example.com" "organic" 11] /\
  adapter_calls out.1 = S (adapter_calls world_0) /\
  active_provider out.1 = active_provider world_0 /\
  active_mode out.1 = active_mode world_0 /\
  (status_of (respond out.2) = 200 \/ status_of (respond out.2) = 500).
Proof.
  intros request out.
  split; [reflexivity | split; [reflexivity |]].
  apply (generate_traffic_no_intensity_check backend_ok loads_object request
           world_0 engine_0 eq_refl).
  - intros (s & Hs & _). discriminate Hs.
  - intros (s & Hs & _). discriminate Hs.
Defined.

(** C1 as stated fails: with intensity 11 the request is served (200) and
    the backend has been called once. *)
Lemma intensity_11_reaches_backend :
  let out := generate_traffic backend_ok loads_object (request_of 11 None None) world_0 in
  intensity_in_range 11 = false /\
  status_of (respond out.2) = 200 /\
  adapter_calls world_0 = 0%nat /\
  adapter_calls out.1 = 1%nat /\
  ~ rejects_intensity backend_ok loads_object (request_of 11 None None) world_0.
Proof.
  cbn. repeat split; try reflexivity.
  intros (H & _). vm_compute in H. discriminate H.
Qed.

(** C2, amended: the generation handler takes the provider override first
    and commits it as soon as it is accepted, then the mode override in the
    same way, and checks no intensity.  A refused provider override leaves
    the whole state as it was; a refused mode override leaves the mode as it
    was and the backend uncalled, while an accepted provider override of
    the same request stays committed; with no override refused the backend
    is called after the commits. *)
Theorem generate_traffic_override_order backend json_loads request w pg :
  primal_genesis w = Some pg ->
  let out := generate_traffic backend json_loads request w in
  (forall s, override (TrafficRequest.provider request) = Some s ->
     PrimalGenesisProvider.of_value s = None ->
     out.1 = w /\
     caused_by (HTTPException 400 (Text ("Invalid provider: " +:+ s))) out.2) /\
  (forall s, ~ provider_refused request ->
     override (TrafficRequest.mystical_mode request) = Some s ->
     MysticalMode.of_value s = None ->
     caused_by (HTTPException 400 (Text ("Invalid mystical mode: " +:+ s))) out.2 /\
     history out.1 = history w ++
       match provider_named request with Some p => [ProviderSwitched p] | None => [] end /\
     adapter_calls out.1 = adapter_calls w /\
     active_mode out.1 = active_mode w /\
     active_provider out.1 =
       match provider_named request with
       | Some p => Some (PyProvider p)
       | None => active_provider w
       end) /\
  (~ provider_refused request -> ~ mode_refused request ->
     history out.1 = history w ++ override_events request ++
       [GenerateCalled (TrafficRequest.target_url request)
          (TrafficRequest.behavior_type request) (TrafficRequest.intensity request)]).
Proof.
  intros Hpg out. subst out. split; [|split].
  - intros s Hs Hv.
    rewrite (generate_traffic_provider_refused _ _ _ _ _ _ Hpg Hs Hv).
    split; [reflexivity | eexists; reflexivity].
  - intros s Hnp Hs Hv.
    rewrite (generate_traffic_mode_refused _ _ _ _ _ _ Hpg Hnp Hs Hv).
    cbn [fst snd]. rewrite (commit_provider_world _ _ _ Hpg).
    split; [eexists; reflexivity|].
    unfold active_mode, active_provider, registry.
    destruct (provider_named request) as [p|].
    + rewrite adapter_calls_log_event. cbn. rewrite Hpg. cbn. auto.
    + rewrite app_nil_r, Hpg. cbn. auto.
  - intros Hnp Hnm.
    apply (generate_traffic_served backend json_loads request w pg Hpg Hnp Hnm).
Qed.

Lemma generate_traffic_override_order_witness :
  let request := request_of 5 (Some "openai") (Some "bogus") in
  let out := generate_traffic backend_ok loads_object request world_0 in
  primal_genesis world_0 = Some engine_0 /\
  caused_by (HTTPException 400 (Text "Invalid mystical mode: bogus")) out.2 /\
  history out.1 = [ProviderSwitched PrimalGenesisProvider.OPENAI] /\
  adapter_calls out.1 = adapter_calls world_0 /\
  active_mode out.1 = active_mode world_0 /\
  active_provider out.1 = Some (PyProvider PrimalGenesisProvider.OPENAI).
Proof.
  intros request out. split; [reflexivity|].
  destruct (generate_traffic_override_order backend_ok loads_object request
              world_0 engine_0 eq_refl) as (_ & Hmode & _).
  apply (Hmode "bogus"); [|reflexivity|reflexivity].
  intros (s & Hs & Hv). vm_compute in Hs. injection Hs as <-. vm_compute in Hv. discriminate Hv.
Defined.

(** C2 as stated fails: a valid provider override that comes with an invalid
    mode override is committed although the request is refused. *)
Lemma refused_mode_keeps_provider_override :
  let request := request_of 5 (Some "openai") (Some "bogus") in
  let out := generate_traffic backend_ok loads_object request world_0 in
  PrimalGenesisProvider.of_value "openai" = Some PrimalGenesisProvider.OPENAI /\
  MysticalMode.of_value "bogus" = None /\
  failed out.2 /\
  registry world_0 =
    Some (PyProvider PrimalGenesisProvider.MISTRAL, PyMode MysticalMode.SOVEREIGN) /\
  registry out.1 =
    Some (PyProvider PrimalGenesisProvider.OPENAI, PyMode MysticalMode.SOVEREIGN) /\
  registry out.1 <> registry world_0.
Proof.
  cbn zeta. repeat split; try reflexivity.
  - eexists; reflexivity.
  - vm_compute. discriminate.
Qed.

Lemma of_value_truthy s p : PrimalGenesisProvider.of_value s = Some p -> truthy s = true.
Proof. destruct s; [discriminate | reflexivity]. Qed.

Lemma mode_refused_dec request : mode_refused request \/ ~ mode_refused request.
Proof.
  unfold mode_refused.
  destruct (override (TrafficRequest.mystical_mode request)) as [s|] eqn:Ho.
  - destruct (MysticalMode.of_value s) eqn:Hv.
    + right. intros (s' & Hs' & Hv'). congruence.
    + left. eauto.
  - right. intros (s' & Hs' & _). discriminate.
Qed.

(** The status handler on a running engine answers with the engine's status
    and changes nothing. *)
Lemma get_sovereign_status_running w pg :
  primal_genesis w = Some pg ->
  get_sovereign_status w = (w, inr (StatusBody (Engine.get_sovereign_status pg))).
Proof. intros Hpg. unfold_handlers. rewrite Hpg. cbn. rewrite Hpg. reflexivity. Qed.

(** C4: a generation request with a valid provider override [P] commits it
    as its first effect, before any call of the backend, and nothing undoes
    it: whatever the backend and the mode override do, the Registry holds
    [P] afterwards and the status handler reports it. *)
Theorem generate_traffic_commits_provider backend json_loads request w pg s P :
  primal_genesis w = Some pg ->
  TrafficRequest.provider request = Some s ->
  PrimalGenesisProvider.of_value s = Some P ->
  let out := generate_traffic backend json_loads request w in
  (exists rest, history out.1 = history w ++ ProviderSwitched P :: rest) /\
  active_provider out.1 = Some (PyProvider P) /\
  exists st, (get_sovereign_status out.1).2 = inr (StatusBody st) /\
             Engine.st_current_provider st = PrimalGenesisProvider.value P.
Proof.
  intros Hpg Hs HP out. subst out.
  assert (Hnamed : provider_named request = Some P).
  { unfold provider_named, override. rewrite Hs, (of_value_truthy _ _ HP). exact HP. }
  assert (Hnp : ~ provider_refused request).
  { intros (s' & Hs' & Hv'). unfold override in Hs'.
    rewrite Hs, (of_value_truthy _ _ HP) in Hs'. congruence. }
  destruct (mode_refused_dec request) as [(sm & Hsm & Hvm) | Hnm].
  - rewrite (generate_traffic_mode_refused _ _ _ _ _ _ Hpg Hnp Hsm Hvm).
    cbn [fst snd]. rewrite (commit_provider_world _ _ _ Hpg), Hnamed.
    split; [exists []; reflexivity|].
    split; [reflexivity|].
    eexists. erewrite get_sovereign_status_running by reflexivity.
    split; reflexivity.
  - rewrite (generate_traffic_accepted _ _ _ _ _ Hpg Hnp Hnm).
    rewrite (commit_provider_world _ _ _ Hpg), Hnamed.
    erewrite commit_mode_world by reflexivity.
    destruct (mode_named request) as [m|];
      (erewrite generate_traffic_plain by reflexivity); cbn [fst snd].
    + split; [eexists; cbn; rewrite <- !app_assoc; reflexivity|].
      split; [reflexivity|].
      eexists. erewrite get_sovereign_status_running by reflexivity.
      split; reflexivity.
    + split; [eexists; cbn; rewrite <- !app_assoc; reflexivity|].
      split; [reflexivity|].
      eexists. erewrite get_sovereign_status_running by reflexivity.
      split; reflexivity.
Qed.

Lemma generate_traffic_commits_provider_witness :
  let request := request_of 5 (Some "gemini") None in
  let out := generate_traffic backend_down loads_object request world_0 in
  primal_genesis world_0 = Some engine_0 /\
  TrafficRequest.provider request = Some "gemini" /\
  PrimalGenesisProvider.of_value "gemini" = Some PrimalGenesisProvider.GEMINI /\
  status_of (respond out.2) = 500 /\
  (exists rest, history out.1 = history world_0 ++
                  ProviderSwitched PrimalGenesisProvider.GEMINI :: rest) /\
  active_provider out.1 = Some (PyProvider PrimalGenesisProvider.GEMINI) /\
  exists st, (get_sovereign_status out.1).2 = inr (StatusBody st) /\
             Engine.st_current_provider st = "gemini".
Proof.
  intros request out.
  split; [reflexivity|]. split; [reflexivity|]. split; [reflexivity|].
  split; [reflexivity|].
  apply (generate_traffic_commits_provider backend_down loads_object request
           world_0 engine_0 "gemini" PrimalGenesisProvider.GEMINI); reflexivity.
Defined.

(** ** The provider and mode handlers *)

Lemma switch_provider_unknown config w pg :
  primal_genesis w = Some pg ->
  PrimalGenesisProvider.of_value (ProviderConfig.provider config) = None ->
  switch_provider config w =
    (w, inl (HTTPException 500 (StrOf (ValueError (ProviderConfig.provider config))))).
Proof.
  intros Hpg Hv. unfold_handlers. rewrite Hpg. cbn.
  destruct (truthy (ProviderConfig.api_key config)); cbn; rewrite ?Hpg, Hv; reflexivity.
Qed.

Lemma switch_provider_no_key config w pg p :
  primal_genesis w = Some pg ->
  PrimalGenesisProvider.of_value (ProviderConfig.provider config) = Some p ->
  truthy (ProviderConfig.api_key config) = false ->
  switch_provider config w = (switched p pg w, inr (provider_body config w)).
Proof.
  intros Hpg Hv Hk. unfold_handlers. rewrite Hpg. cbn.
  rewrite Hk. cbn. rewrite Hv. cbn. rewrite Hpg. reflexivity.
Qed.

Lemma switch_provider_with_key config w pg p :
  primal_genesis w = Some pg ->
  PrimalGenesisProvider.of_value (ProviderConfig.provider config) = Some p ->
  truthy (ProviderConfig.api_key config) = true ->
  let out := switch_provider config w in
  match api_key_env pg p with
  | Some name =>
      if putenv_refuses name (ProviderConfig.api_key config)
      then out.1 = w /\ failed out.2
      else out = (switched p pg (installed name (ProviderConfig.api_key config) w),
                  inr (provider_body config w))
  | None => out.1 = w /\ failed out.2
  end.
Proof.
  intros Hpg Hv Hk. unfold api_key_env, putenv_refuses, failed. unfold_handlers.
  rewrite Hpg. cbn. rewrite Hk. cbn. rewrite Hpg. cbn. rewrite Hv. cbn.
  destruct (Engine.provider_configs pg !! p) as [entry|]; cbn; [|eauto].
  destruct (entry !! "api_key_env") as [name|]; cbn; [|eauto].
  destruct (contains zero name || contains zero (ProviderConfig.api_key config)); cbn;
    [eauto|].
  destruct (negb (truthy name) || contains "=" name); cbn; [eauto|].
  rewrite ?Hv; cbn; rewrite ?Hpg; reflexivity.
Qed.

Lemma switch_mystical_mode_unknown request w pg :
  primal_genesis w = Some pg ->
  MysticalMode.of_value (MysticalModeRequest.mode request) = None ->
  switch_mystical_mode request w =
    (w, inl (HTTPException 500 (StrOf (ValueError (MysticalModeRequest.mode request))))).
Proof.
  intros Hpg Hv. unfold_handlers. rewrite Hpg. cbn. rewrite Hv. reflexivity.
Qed.

Lemma switch_mystical_mode_known request w pg m :
  primal_genesis w = Some pg ->
  MysticalMode.of_value (MysticalModeRequest.mode request) = Some m ->
  switch_mystical_mode request w =
    (log_event (ModeSwitched m) (with_engine (Some (Engine.switch_mystical_mode (PyMode m) pg)) w),
     inr (mode_body request w)).
Proof.
  intros Hpg Hv. unfold_handlers. rewrite Hpg. cbn. rewrite Hv. cbn. rewrite Hpg. reflexivity.
Qed.

(** C3 on the code: an identifier outside the enumeration makes either
    switch handler answer 500, not 400; the Registry is left as it was.
    Evaluated at the provider identifier [llama] and the mode identifier
    [chaotic]. *)
Theorem switch_unknown_identifier_answers_500 :
  let out_p := switch_provider
                 {| ProviderConfig.provider := "llama"; ProviderConfig.api_key := "" |}
                 world_0 in
  let out_m := switch_mystical_mode {| MysticalModeRequest.mode := "chaotic" |} world_0 in
  PrimalGenesisProvider.of_value "llama" = None /\
  MysticalMode.of_value "chaotic" = None /\
  respond out_p.2 = Http 500 (inr (StrOf (ValueError "llama"))) /\
  respond out_m.2 = Http 500 (inr (StrOf (ValueError "chaotic"))) /\
  out_p.1 = world_0 /\
  out_m.1 = world_0.
Proof. cbv zeta. repeat split; reflexivity. Qed.

(** C6: when the provider handler is given a credential and a valid
    identifier, the credential is written to the environment before the
    switch is committed: the call either stops before both (the table has
    no variable name for the provider, or the environment refuses the
    assignment) and changes nothing, or leaves exactly the two effects in
    that order, with the credential readable under the provider's
    variable. *)
Theorem switch_provider_credential_first config w pg p :
  primal_genesis w = Some pg ->
  truthy (ProviderConfig.api_key config) = true ->
  PrimalGenesisProvider.of_value (ProviderConfig.provider config) = Some p ->
  let out := switch_provider config w in
  match api_key_env pg p with
  | Some name =>
      if putenv_refuses name (ProviderConfig.api_key config)
      then out.1 = w /\ failed out.2
      else history out.1 =
             history w ++ [EnvironSet name (ProviderConfig.api_key config);
                           ProviderSwitched p] /\
           environ out.1 !! name = Some (ProviderConfig.api_key config) /\
           active_provider out.1 = Some (PyProvider p) /\
           status_of (respond out.2) = 200
  | None => out.1 = w /\ failed out.2
  end.
Proof.
  intros Hpg Hk Hv out.
  pose proof (switch_provider_with_key config w pg p Hpg Hv Hk) as H.
  cbv zeta in H. fold out in H.
  destruct (api_key_env pg p) as [name|]; [|exact H].
  destruct (putenv_refuses name (ProviderConfig.api_key config)); [exact H|].
  rewrite H. cbn. rewrite <- app_assoc. cbn.
  repeat split. apply lookup_insert_eq.
Qed.

Lemma switch_provider_credential_first_witness :
  let config := {| ProviderConfig.provider := "openai"; ProviderConfig.api_key := "sk-1" |} in
  let out := switch_provider config world_0 in
  primal_genesis world_0 = Some engine_0 /\
  truthy (ProviderConfig.api_key config) = true /\
  PrimalGenesisProvider.of_value (ProviderConfig.provider config)
    = Some PrimalGenesisProvider.OPENAI /\
  history out.1 = [EnvironSet "OPENAI_API_KEY" "sk-1";
                   ProviderSwitched PrimalGenesisProvider.OPENAI] /\
  environ out.1 !! "OPENAI_API_KEY" = Some "sk-1" /\
  active_provider out.1 = Some (PyProvider PrimalGenesisProvider.OPENAI) /\
  status_of (respond out.2) = 200.
Proof.
  intros config out.
  split; [reflexivity|]. split; [reflexivity|]. split; [reflexivity|].
  exact (switch_provider_credential_first config world_0 engine_0
           PrimalGenesisProvider.OPENAI eq_refl eq_refl eq_refl).
Defined.

Lemma switch_provider_uninitialized config w :
  primal_genesis w = None ->
  switch_provider config w =
    (w, inl (HTTPException 500
               (StrOf (HTTPException 500 (Text "Primal Genesis Engine not initialized"))))).
Proof. intros Hpg. unfold_handlers. rewrite Hpg. reflexivity. Qed.

Lemma get_sovereign_status_answer w :
  (get_sovereign_status w).2 =
    match primal_genesis w with
    | Some pg => inr (StatusBody (Engine.get_sovereign_status pg))
    | None => inl (HTTPException 500
                     (StrOf (HTTPException 500 (Text "Primal Genesis Engine not initialized"))))
    end.
Proof.
  unfold_handlers. destruct (primal_genesis w) as [pg|] eqn:Hpg; cbn; [|reflexivity].
  rewrite Hpg. reflexivity.
Qed.

(** C9: the provider handler is idempotent on what can be observed.  After
    a second call with the same valid identifier and the same credential
    the status handler reports what it reported after the first, and the
    engine and the environment are the same. *)
Theorem switch_provider_idempotent config w p :
  PrimalGenesisProvider.of_value (ProviderConfig.provider config) = Some p ->
  let once := switch_provider config w in
  let twice := switch_provider config once.1 in
  (get_sovereign_status twice.1).2 = (get_sovereign_status once.1).2 /\
  primal_genesis twice.1 = primal_genesis once.1 /\
  environ twice.1 = environ once.1.
Proof.
  intros Hv once twice.
  assert (Hsame : primal_genesis twice.1 = primal_genesis once.1 /\
                  environ twice.1 = environ once.1).
  { subst once twice.
    destruct (primal_genesis w) as [pg|] eqn:Hpg.
    2:{ rewrite (switch_provider_uninitialized config w Hpg). cbn [fst].
        rewrite (switch_provider_uninitialized config w Hpg). auto. }
    destruct (truthy (ProviderConfig.api_key config)) eqn:Hk.
    - pose proof (switch_provider_with_key config w pg p Hpg Hv Hk) as H1.
      cbv zeta in H1.
      destruct (api_key_env pg p) as [name|] eqn:Hname.
      + destruct (putenv_refuses name (ProviderConfig.api_key config)) eqn:Hput.
        * destruct H1 as [-> _].
          pose proof (switch_provider_with_key config w pg p Hpg Hv Hk) as H2.
          cbv zeta in H2. rewrite Hname, Hput in H2. destruct H2 as [-> _]. auto.
        * rewrite H1. cbn [fst].
          pose proof (switch_provider_with_key config
                        (switched p pg (installed name (ProviderConfig.api_key config) w))
                        (Engine.switch_provider (PyProvider p) pg) p eq_refl Hv Hk) as H2.
          cbv zeta in H2.
          change (api_key_env (Engine.switch_provider (PyProvider p) pg) p)
            with (api_key_env pg p) in H2.
          rewrite Hname, Hput in H2. rewrite H2. cbn.
          split; [reflexivity | apply insert_insert_eq].
      + destruct H1 as [-> _].
        pose proof (switch_provider_with_key config w pg p Hpg Hv Hk) as H2.
        cbv zeta in H2. rewrite Hname in H2. destruct H2 as [-> _]. auto.
    - rewrite (switch_provider_no_key config w pg p Hpg Hv Hk). cbn [fst].
      rewrite (switch_provider_no_key config (switched p pg w)
                 (Engine.switch_provider (PyProvider p) pg) p eq_refl Hv Hk).
      cbn. auto. }
  destruct Hsame as [Hpg Henv]. split; [|auto].
  rewrite !get_sovereign_status_answer, Hpg. reflexivity.
Qed.

Lemma switch_provider_idempotent_witness :
  let config := {| ProviderConfig.provider := "openai"; ProviderConfig.api_key := "sk-1" |} in
  let once := switch_provider config world_0 in
  let twice := switch_provider config once.1 in
  PrimalGenesisProvider.of_value (ProviderConfig.provider config)
    = Some PrimalGenesisProvider.OPENAI /\
  status_of (respond once.2) = 200 /\
  (get_sovereign_status twice.1).2 = (get_sovereign_status once.1).2 /\
  primal_genesis twice.1 = primal_genesis once.1 /\
  environ twice.1 = environ once.1.
Proof.
  intros config once twice.
  split; [reflexivity|]. split; [reflexivity|].
  exact (switch_provider_idempotent config world_0 PrimalGenesisProvider.OPENAI eq_refl).
Defined.

(** ** What the request handlers leave alone *)

Lemma frame_refl w : frame w w.
Proof. split; auto. Qed.

Lemma frame_trans w1 w2 w3 : frame w1 w2 -> frame w2 w3 -> frame w1 w3.
Proof.
  intros [C1 K1 E1] [C2 K2 E2]. split; [congruence | congruence | auto].
Qed.

Section Keeps.

Variable R : World -> World -> Prop.
Hypothesis R_refl : forall w, R w w.
Hypothesis R_trans : forall w1 w2 w3, R w1 w2 -> R w2 w3 -> R w1 w3.

Lemma keeps_ret {A} (a : A) : keeps R (mret a).
Proof. intros w. apply R_refl. Qed.

Lemma keeps_raise {A} (e : Exception) : keeps R (@raise A e).
Proof. intros w. apply R_refl. Qed.

Lemma keeps_bind {A B} (m : M A) (k : A -> M B) :
  keeps R m -> (forall a, keeps R (k a)) -> keeps R (m ≫= k).
Proof.
  intros Hm Hk w. unfold mbind, M_bind.
  specialize (Hm w). destruct (m w) as [w' [e|a]]; cbn in *; [exact Hm|].
  eapply R_trans; [exact Hm | apply Hk].
Qed.

Lemma keeps_try_except {A} (body : M A) names handler :
  keeps R body -> (forall e, keeps R (handler e)) -> keeps R (try_except body names handler).
Proof.
  intros Hb Hh w. unfold try_except.
  specialize (Hb w). destruct (body w) as [w' [e|a]]; cbn in *; [|exact Hb].
  destruct (names e); cbn; [|exact Hb].
  eapply R_trans; [exact Hb | apply Hh].
Qed.

End Keeps.

Lemma keeps_check_initialized R : (forall w, R w w) -> keeps R check_initialized.
Proof. intros Hr w. unfold check_initialized. destruct (primal_genesis w); apply Hr. Qed.

Lemma keeps_engine_read R {A} (f : Engine.PrimalGenesisModel -> A) :
  (forall w, R w w) -> keeps R (engine_read f).
Proof. intros Hr w. unfold engine_read. destruct (primal_genesis w); apply Hr. Qed.

Lemma keeps_now R : (forall w, R w w) -> keeps R now.
Proof. intros Hr w. apply Hr. Qed.

Lemma frame_engine_update f ev : keeps frame (engine_update f ev).
Proof.
  intros w. unfold engine_update.
  destruct (primal_genesis w) eqn:Hpg; cbn; [|apply frame_refl].
  split; cbn; auto; congruence.
Qed.

Lemma frame_environ_setitem key value : keeps frame (environ_setitem key value).
Proof.
  intros w. unfold environ_setitem.
  repeat case_match; cbn; try apply frame_refl.
  split; cbn; auto.
Qed.

Lemma keeps_getitem R {K V} `{Countable K} (d : gmap K V) k shown :
  (forall w, R w w) -> keeps R (getitem d k shown).
Proof. intros Hr w. unfold getitem. destruct (d !! k); apply Hr. Qed.

Lemma keeps_provider_of_value R s : (forall w, R w w) -> keeps R (provider_of_value s).
Proof. intros Hr w. unfold provider_of_value. case_match; apply Hr. Qed.

Lemma keeps_mode_of_value R s : (forall w, R w w) -> keeps R (mode_of_value s).
Proof. intros Hr w. unfold mode_of_value. case_match; apply Hr. Qed.

Lemma frame_engine_generate backend u b i : keeps frame (engine_generate backend u b i).
Proof.
  intros w. unfold engine_generate.
  destruct (primal_genesis w) eqn:Hpg; cbn; [|apply frame_refl].
  split; cbn; auto.
Qed.

Lemma frame_engine_initiate protocol : keeps frame (engine_initiate protocol).
Proof.
  intros w. unfold engine_initiate.
  destruct (primal_genesis w) eqn:Hpg; cbn; [|apply frame_refl].
  split; cbn; eauto.
Qed.

Lemma keeps_loads R json_loads doc : (forall w, R w w) -> keeps R (loads json_loads doc).
Proof. intros Hr w. unfold loads. case_match; apply Hr. Qed.

Lemma frame_ret {A} (a : A) : keeps frame (mret a).
Proof. apply keeps_ret, frame_refl. Qed.

Lemma frame_raise {A} (e : Exception) : keeps frame (@raise A e).
Proof. apply keeps_raise, frame_refl. Qed.

Lemma frame_bind {A B} (m : M A) (k : A -> M B) :
  keeps frame m -> (forall a, keeps frame (k a)) -> keeps frame (m ≫= k).
Proof. apply keeps_bind, frame_trans. Qed.

Lemma frame_try_except {A} (body : M A) names handler :
  keeps frame body -> (forall e, keeps frame (handler e)) ->
  keeps frame (try_except body names handler).
Proof. apply keeps_try_except, frame_trans. Qed.

Lemma frame_check_initialized : keeps frame check_initialized.
Proof. apply keeps_check_initialized, frame_refl. Qed.

Lemma frame_engine_read {A} (f : Engine.PrimalGenesisModel -> A) :
  keeps frame (engine_read f).
Proof. apply keeps_engine_read, frame_refl. Qed.

Lemma frame_now : keeps frame now.
Proof. apply keeps_now, frame_refl. Qed.

Lemma frame_getitem {K V} `{Countable K} (d : gmap K V) k shown :
  keeps frame (getitem d k shown).
Proof. apply keeps_getitem, frame_refl. Qed.

Lemma frame_provider_of_value s : keeps frame (provider_of_value s).
Proof. apply keeps_provider_of_value, frame_refl. Qed.

Lemma frame_mode_of_value s : keeps frame (mode_of_value s).
Proof. apply keeps_mode_of_value, frame_refl. Qed.

Lemma frame_loads json_loads doc : keeps frame (loads json_loads doc).
Proof. apply keeps_loads, frame_refl. Qed.

(** Every request handler is made of the pieces above. *)
Lemma frame_handle json_loads r : keeps frame (handle json_loads r).
Proof.
  destruct r; cbn;
    unfold generate_traffic, switch_provider, switch_mystical_mode, get_sovereign_status,
      initiate_sovereign_protocol, engine_switch_provider, engine_switch_mystical_mode;
    repeat case_match;
    eauto 20 using frame_ret, frame_raise, frame_bind, frame_try_except,
      frame_check_initialized, frame_engine_read, frame_now, frame_getitem,
      frame_provider_of_value, frame_mode_of_value, frame_loads, frame_engine_update,
      frame_environ_setitem, frame_engine_generate, frame_engine_initiate.
Qed.

(** ** Relations that the handlers keep *)

(** A relation that the effects of a handler keep is kept by the handler. *)
Section HandlersKeep.

Variable R : World -> World -> Prop.
Hypothesis R_refl : forall w, R w w.
Hypothesis R_trans : forall w1 w2 w3, R w1 w2 -> R w2 w3 -> R w1 w3.
Hypothesis R_provider : forall p, keeps R (engine_switch_provider p).
Hypothesis R_mode : forall m, keeps R (engine_switch_mystical_mode m).
Hypothesis R_setitem : forall key value, keeps R (environ_setitem key value).
Hypothesis R_generate : forall backend u b i, keeps R (engine_generate backend u b i).

Lemma keeps_generate_traffic backend json_loads request :
  keeps R (generate_traffic backend json_loads request).
Proof.
  unfold generate_traffic.
  repeat case_match;
    eauto 20 using keeps_ret, keeps_raise, keeps_bind, keeps_try_except,
      keeps_check_initialized, keeps_now, keeps_provider_of_value,
      keeps_mode_of_value, keeps_loads.
Qed.

Lemma keeps_switch_provider config : keeps R (switch_provider config).
Proof.
  unfold switch_provider.
  repeat case_match;
    eauto 20 using keeps_ret, keeps_raise, keeps_bind, keeps_try_except,
      keeps_check_initialized, keeps_engine_read, keeps_now, keeps_getitem,
      keeps_provider_of_value.
Qed.

Lemma keeps_switch_mystical_mode request : keeps R (switch_mystical_mode request).
Proof.
  unfold switch_mystical_mode.
  eauto 20 using keeps_ret, keeps_raise, keeps_bind, keeps_try_except,
    keeps_check_initialized, keeps_now, keeps_mode_of_value.
Qed.

Lemma keeps_get_sovereign_status : keeps R get_sovereign_status.
Proof.
  unfold get_sovereign_status.
  eauto 20 using keeps_ret, keeps_raise, keeps_bind, keeps_try_except,
    keeps_check_initialized, keeps_engine_read.
Qed.

Lemma keeps_initiate_sovereign_protocol protocol :
  keeps R (engine_initiate protocol) ->
  keeps R (initiate_sovereign_protocol protocol).
Proof.
  intros R_initiate. unfold initiate_sovereign_protocol.
  eauto 20 using keeps_ret, keeps_raise, keeps_bind, keeps_try_except,
    keeps_check_initialized, keeps_now.
Qed.

End HandlersKeep.

(** ** The Registry of a running process *)

Lemma value_in_values p : PrimalGenesisProvider.value p ∈ PrimalGenesisProvider.values.
Proof.
  unfold PrimalGenesisProvider.values, PrimalGenesisProvider.members.
  destruct p; cbn; set_solver.
Qed.

Lemma mode_value_in_values m : MysticalMode.value m ∈ MysticalMode.values.
Proof.
  unfold MysticalMode.values, MysticalMode.members.
  destruct m; cbn; set_solver.
Qed.

Lemma registry_held_valid w : registry_held w -> registry_valid w.
Proof.
  intros Hheld. split; [exact Hheld|].
  destruct Hheld as (pg & Hpg & (p & Hp) & (m & Hm)).
  eexists. rewrite get_sovereign_status_answer, Hpg. split; [reflexivity|].
  cbn. rewrite Hp, Hm. cbn.
  split; [apply value_in_values | apply mode_value_in_values].
Qed.

Lemma registry_kept_refl w : registry_kept w w.
Proof. intros H. exact H. Qed.

Lemma registry_kept_trans w1 w2 w3 :
  registry_kept w1 w2 -> registry_kept w2 w3 -> registry_kept w1 w3.
Proof. unfold registry_kept. auto. Qed.

(** The engine's switch is given a member by the handlers, so the engine
    holds a member after it. *)
Lemma registry_kept_provider p : keeps registry_kept (engine_switch_provider p).
Proof.
  intros w (pg & Hpg & _ & Hm). unfold engine_switch_provider, engine_update.
  rewrite Hpg. cbn. eexists. split; [reflexivity|].
  split; cbn; [eauto | exact Hm].
Qed.

Lemma registry_kept_mode m : keeps registry_kept (engine_switch_mystical_mode m).
Proof.
  intros w (pg & Hpg & Hp & _). unfold engine_switch_mystical_mode, engine_update.
  rewrite Hpg. cbn. eexists. split; [reflexivity|].
  split; cbn; [exact Hp | eauto].
Qed.

Lemma registry_kept_setitem key value : keeps registry_kept (environ_setitem key value).
Proof.
  intros w H. unfold environ_setitem. repeat case_match; exact H.
Qed.

Lemma registry_kept_generate backend u b i :
  keeps registry_kept (engine_generate backend u b i).
Proof.
  intros w H. unfold engine_generate. destruct (primal_genesis w) eqn:Hpg; exact H.
Qed.

Lemma registry_kept_initiate protocol :
  protocol_within_contract protocol -> keeps registry_kept (engine_initiate protocol).
Proof.
  intros Hc w (pg & Hpg & (p & Hp) & (m & Hm)). unfold engine_initiate.
  rewrite Hpg. cbn. eexists. split; [reflexivity|].
  destruct (Hc pg) as [Hcp Hcm]. split; [exists p | exists m]; congruence.
Qed.

(** Every request handler leaves the Registry held. *)
Lemma registry_kept_handle json_loads r :
  request_within_contract r -> keeps registry_kept (handle json_loads r).
Proof.
  intros Hc. destruct r; cbn.
  - apply (keeps_generate_traffic registry_kept registry_kept_refl registry_kept_trans
             registry_kept_provider registry_kept_mode registry_kept_generate).
  - apply (keeps_switch_provider registry_kept registry_kept_refl registry_kept_trans
             registry_kept_provider registry_kept_setitem).
  - apply (keeps_switch_mystical_mode registry_kept registry_kept_refl registry_kept_trans
             registry_kept_mode).
  - apply (keeps_get_sovereign_status registry_kept registry_kept_refl registry_kept_trans).
  - apply (keeps_initiate_sovereign_protocol registry_kept registry_kept_refl
             registry_kept_trans).
    apply registry_kept_initiate, Hc.
Qed.

(** The startup hook installs the engine the constructor returns. *)
Lemma startup_event_installs new_model w0 pg :
  new_model default_config = inr pg ->
  startup_event new_model w0 = (with_engine (Some pg) w0, inr tt).
Proof.
  intros H. unfold startup_event, try_except, construct, assign_engine, mbind, M_bind.
  rewrite H. reflexivity.
Qed.

(** A resumption of an observer's handler writes the connection list and
    nothing else. *)
Lemma leave_engine ws e c w :
  primal_genesis (leave ws e c w).1 = primal_genesis w /\
  clock (leave ws e c w).1 = clock w /\
  environ (leave ws e c w).1 = environ w /\
  history (leave ws e c w).1 = history w.
Proof. unfold leave. repeat case_match; cbn; auto. Qed.

Lemma websocket_endpoint_engine ws o c w w' c' :
  websocket_endpoint ws o c w = Some (w', c') ->
  primal_genesis w' = primal_genesis w /\ clock w' = clock w /\
  environ w' = environ w /\ history w' = history w.
Proof.
  unfold websocket_endpoint. intros H.
  destruct (pc c) as [|f|until| |e0]; [| | |discriminate|discriminate].
  - destruct o; injection H as <- <-; cbn; auto.
  - destruct (send_text o).
    + injection H as <- <-. auto.
    + injection H as H. apply (f_equal fst) in H. cbn in H. subst w'. apply leave_engine.
  - destruct o.
    + destruct (until <=? clock w); [|discriminate]. injection H as <- <-. auto.
    + injection H as H. apply (f_equal fst) in H. cbn in H. subst w'. apply leave_engine.
Qed.

Lemma registry_held_step json_loads a s s' :
  within_contract a ->
  step json_loads a s = Some s' ->
  registry_held (world s) -> registry_held (world s').
Proof.
  destruct a as [ws|ws o|d|r]; cbn; intros Hc H Hheld.
  - case_match; simplify_eq. exact Hheld.
  - destruct (conns s !! ws) as [c|]; [|discriminate].
    destruct (websocket_endpoint ws o c (world s)) as [[w' c']|] eqn:Hws; [|discriminate].
    simplify_eq. cbn.
    apply websocket_endpoint_engine in Hws as (Hpg & _).
    unfold registry_held. rewrite Hpg. exact Hheld.
  - case_match; simplify_eq. exact Hheld.
  - simplify_eq. cbn. apply (registry_kept_handle json_loads r Hc (world s)), Hheld.
Qed.

Lemma registry_held_run json_loads acts s s' :
  Forall within_contract acts ->
  run json_loads acts s = Some s' ->
  registry_held (world s) -> registry_held (world s').
Proof.
  revert s. induction acts as [|a acts IH]; cbn; intros s Hc H Hheld.
  - simplify_eq. exact Hheld.
  - apply Forall_cons in Hc as [Ha Hc].
    destruct (step json_loads a s) as [s1|] eqn:Hstep; [|discriminate].
    eapply IH; [exact Hc | exact H |]. eapply registry_held_step; eauto.
Qed.

(** C5: once the startup hook has installed the engine, built from the
    default configuration, the Registry always holds a provider and a mode
    that are members of their enumerations.  The hook names two members;
    every handler that calls a switch of the engine gives it a member that
    the enumeration's constructor returned, and no handler unsets the
    engine.  So whatever the process goes through afterwards (generation
    with or without overrides, provider and mode switches, accepted or
    refused, status reads, observers, time), there is an engine, it holds
    members, and the status handler reports values of the enumerations;
    and each single request leaves a valid Registry valid.  The
    constructor of the engine and its protocol method are external: the
    first is taken to keep the configuration it is given, the second to
    leave provider and mode alone. *)
Theorem registry_invariant new_model json_loads w0 pg s0 acts s :
  new_model default_config = inr pg ->
  Engine.config pg = default_config ->
  world s0 = (startup_event new_model w0).1 ->
  Forall within_contract acts ->
  run json_loads acts s0 = Some s ->
  registry_valid (world s) /\
  forall w r, registry_valid w -> request_within_contract r ->
    registry_valid (handle json_loads r w).1.
Proof.
  intros Hnew Hconfig Hstart Hacts Hrun. split.
  - apply registry_held_valid.
    apply (registry_held_run json_loads acts s0 s Hacts Hrun).
    rewrite Hstart, (startup_event_installs new_model w0 pg Hnew). cbn.
    exists pg. split; [reflexivity|].
    unfold engine_valid. rewrite Hconfig. cbn. eauto.
  - intros w r [Hheld _] Hr. apply registry_held_valid.
    apply (registry_kept_handle json_loads r Hr w), Hheld.
Qed.

Lemma registry_invariant_witness :
  new_engine_0 default_config = inr engine_0 /\
  Engine.config engine_0 = default_config /\
  world (system_0 world_0) = (startup_event new_engine_0 (with_engine None world_0)).1 /\
  exists s, run loads_object busy_day (system_0 world_0) = Some s /\
    registry (world s) =
      Some (PyProvider PrimalGenesisProvider.GEMINI, PyMode MysticalMode.ETHEREAL) /\
    registry_valid (world s).
Proof.
  split; [reflexivity|]. split; [reflexivity|]. split; [reflexivity|].
  eexists. split; [vm_compute; reflexivity|]. split; [reflexivity|].
  eapply proj1.
  eapply (registry_invariant new_engine_0 loads_object (with_engine None world_0)
            engine_0 (system_0 world_0) busy_day);
    [reflexivity | reflexivity | reflexivity | | vm_compute; reflexivity].
  unfold busy_day. repeat constructor.
Defined.

(** The end-to-end scenario of the specification: after startup the status
    shows the defaults; a switch to [ethereal] shows in the status; a
    generation with intensity 5 on a backend that returns the empty object
    is answered 200 with that object. *)
Example end_to_end_scenario :
  let acts :=
    [ Serve GetSovereignStatus;
      Serve (PostSwitchMode {| MysticalModeRequest.mode := "ethereal" |});
      Serve GetSovereignStatus;
      Serve (PostGenerateTraffic (request_of 5 None None) backend_ok) ] in
  startup_event new_engine_0 (with_engine None world_0) = (world_0, inr tt) /\
  (responses <$> run loads_object acts (system_0 world_0)) =
    Some [ Http 200 (inl (StatusBody (Engine.get_sovereign_status engine_0)));
           Http 200 (inl (ModeBody true "Switched to ethereal mystical mode" "ethereal" 0));
           Http 200 (inl (StatusBody
             (Engine.get_sovereign_status
                (Engine.switch_mystical_mode (PyMode MysticalMode.ETHEREAL) engine_0))));
           Http 200 (inl (TrafficBody true (JObj []) (JObj []) 0)) ].
Proof. split; vm_compute; reflexivity. Qed.

(** ** The cadence of the live-status channel *)

Lemma run_app json_loads acts1 acts2 s :
  run json_loads (acts1 ++ acts2) s =
  match run json_loads acts1 s with
  | Some s1 => run json_loads acts2 s1
  | None => None
  end.
Proof.
  revert s. induction acts1 as [|a acts1 IH]; cbn; intros s; [reflexivity|].
  destruct (step json_loads a s); [apply IH | reflexivity].
Qed.

Lemma snapshots_S w t n :
  snapshots w t (S n) = snapshot_at w t :: snapshots w (t + sleep_seconds) n.
Proof.
  unfold snapshots. cbn [seq fmap list_fmap]. f_equal.
  - f_equal. cbn. lia.
  - rewrite <- fmap_S_seq, <- list_fmap_compose. apply list_fmap_ext.
    intros _ k _. cbn [compose]. f_equal. lia.
Qed.

(** One cycle of a handler that is in its send. *)
Lemma cycle_run json_loads ws s c f :
  conns s !! ws = Some c ->
  pc c = Sending f ->
  run json_loads (cycle ws) s =
    Some {| world := with_clock (clock (world s) + sleep_seconds) (world s);
            conns := <[ws := {| pc := Sending (snapshot_at (world s)
                                                 (clock (world s) + sleep_seconds));
                               inbox := inbox c ++ [f] |}]> (conns s);
            responses := responses s |}.
Proof.
  intros Hc Hpc. unfold cycle. cbn. rewrite Hc. unfold websocket_endpoint at 1.
  rewrite Hpc. cbn. rewrite lookup_insert_eq. unfold websocket_endpoint. cbn.
  rewrite Z.leb_refl. cbn. rewrite insert_insert_eq. reflexivity.
Qed.

Lemma cycles_run json_loads ws n : forall s c,
  conns s !! ws = Some c ->
  pc c = Sending (snapshot_at (world s) (clock (world s))) ->
  run json_loads (cycles ws n) s =
    Some {| world := with_clock (clock (world s) + sleep_seconds * Z.of_nat n) (world s);
            conns := <[ws := {| pc := Sending (snapshot_at (world s)
                                  (clock (world s) + sleep_seconds * Z.of_nat n));
                               inbox := inbox c ++
                                 snapshots (world s) (clock (world s)) n |}]> (conns s);
            responses := responses s |}.
Proof.
  induction n as [|n IH]; intros s c Hc Hpc.
  - cbn. f_equal. destruct s as [w cs rs]; cbn in *. f_equal.
    + destruct w; unfold with_clock; cbn. f_equal. lia.
    + rewrite app_nil_r. symmetry. apply insert_id. rewrite Hc. f_equal.
      destruct c as [p i]; cbn in *. rewrite Hpc. do 3 f_equal. lia.
  - cbn [cycles]. rewrite run_app, (cycle_run json_loads ws s c _ Hc Hpc).
    erewrite IH; [|cbn; apply lookup_insert_eq | reflexivity].
    cbn [world conns responses inbox pc].
    rewrite insert_insert_eq, snapshots_S, <- app_assoc.
    unfold sleep_seconds. f_equal. f_equal.
    + unfold with_clock; cbn. f_equal. lia.
    + f_equal. f_equal. f_equal.
      unfold snapshot_at, status_update. cbn. f_equal. lia.
Qed.

Lemma subscribe_run json_loads ws s :
  conns s !! ws = None ->
  run json_loads (subscribe ws) s =
    Some {| world := with_connections (active_connections (world s) ++ [ws]) (world s);
            conns := <[ws := {| pc := Sending (status_update (world s));
                               inbox := [] |}]> (conns s);
            responses := responses s |}.
Proof.
  intros Hc. unfold subscribe. cbn. rewrite Hc. cbn.
  rewrite lookup_insert_eq. cbn. rewrite insert_insert_eq. reflexivity.
Qed.


(** The run of a fresh observer through its subscription and [n] cycles. *)
Lemma observe_run json_loads ws s n :
  conns s !! ws = None ->
  exists s', run json_loads (subscribe ws ++ cycles ws n) s = Some s' /\
    inbox_of ws s' = snapshots (world s) (clock (world s)) n /\
    phase_of ws s' = Some Active /\
    primal_genesis (world s') = primal_genesis (world s).
Proof.
  intros Hc. rewrite run_app, (subscribe_run json_loads ws s Hc).
  erewrite cycles_run; [|cbn; apply lookup_insert_eq | reflexivity].
  eexists. split; [reflexivity|].
  unfold inbox_of, phase_of. cbn [conns]. rewrite lookup_insert_eq. cbn.
  repeat split.
Qed.






(** ** Without an engine *)

Lemma uninitialized_generate_traffic backend json_loads request w :
  primal_genesis w = None ->
  generate_traffic backend json_loads request w =
    (w, inl (HTTPException 500
               (StrOf (HTTPException 500 (Text "Primal Genesis Engine not initialized"))))).
Proof. intros Hpg. unfold_handlers. rewrite Hpg. reflexivity. Qed.

Lemma uninitialized_switch_mystical_mode request w :
  primal_genesis w = None ->
  switch_mystical_mode request w =
    (w, inl (HTTPException 500
               (StrOf (HTTPException 500 (Text "Primal Genesis Engine not initialized"))))).
Proof. intros Hpg. unfold_handlers. rewrite Hpg. reflexivity. Qed.

Lemma snapshots_uninitialized w t n :
  primal_genesis w = None ->
  Forall (fun f => type f = "status_update" /\ data f = EmptyObject) (snapshots w t n).
Proof.
  intros Hpg. unfold snapshots. apply Forall_fmap, Forall_forall.
  intros k _. cbn. rewrite Hpg. auto.
Qed.

(** C10: while there is no engine, a subscription to the live-status channel
    does not fail: the observer stays active and every cycle brings it a
    [status_update] message whose data is the empty object.  The four
    request handlers all answer 500, engine not initialized, in that
    state. *)
Theorem uninitialized_channel_still_serves json_loads ws s n
    backend request config mode_request :
  primal_genesis (world s) = None ->
  conns s !! ws = None ->
  (exists s', run json_loads (subscribe ws ++ cycles ws n) s = Some s' /\
     length (inbox_of ws s') = n /\
     Forall (fun f => type f = "status_update" /\ data f = EmptyObject) (inbox_of ws s') /\
     phase_of ws s' = Some Active) /\
  respond (generate_traffic backend json_loads request (world s)).2 = not_initialized /\
  respond (switch_provider config (world s)).2 = not_initialized /\
  respond (switch_mystical_mode mode_request (world s)).2 = not_initialized /\
  respond (get_sovereign_status (world s)).2 = not_initialized.
Proof.
  intros Hpg Hc. split.
  - destruct (observe_run json_loads ws s n Hc) as (s' & Hrun & Hin & Hph & _).
    exists s'. rewrite Hin. repeat split; auto.
    + unfold snapshots. rewrite length_fmap, length_seq. reflexivity.
    + apply snapshots_uninitialized, Hpg.
  - rewrite (uninitialized_generate_traffic _ _ _ _ Hpg),
      (switch_provider_uninitialized _ _ Hpg),
      (uninitialized_switch_mystical_mode _ _ Hpg),
      get_sovereign_status_answer, Hpg.
    repeat split.
Qed.

Lemma uninitialized_channel_still_serves_witness :
  let w := with_engine None world_0 in
  primal_genesis (world (system_0 w)) = None /\
  conns (system_0 w) !! 2%nat = None /\
  (exists s', run loads_object (subscribe 2%nat ++ cycles 2%nat 2) (system_0 w) = Some s' /\
     length (inbox_of 2%nat s') = 2%nat /\
     Forall (fun f => type f = "status_update" /\ data f = EmptyObject) (inbox_of 2%nat s') /\
     phase_of 2%nat s' = Some Active) /\
  respond (get_sovereign_status w).2 = not_initialized.
Proof.
  intros w. split; [reflexivity|]. split; [reflexivity|].
  destruct (uninitialized_channel_still_serves loads_object 2%nat (system_0 w) 2
              backend_ok (request_of 5 None None)
              {| ProviderConfig.provider := "openai"; ProviderConfig.api_key := "" |}
              {| MysticalModeRequest.mode := "ethereal" |} eq_refl eq_refl)
    as (Hws & _ & _ & _ & Hst).
  split; [exact Hws | exact Hst].
Defined.

(** ** Removal from the connection list *)

Lemma list_remove_is_Some x l : x ∈ l <-> is_Some (list_remove x l).
Proof.
  induction l as [|y l IH]; cbn.
  - split; [intros H; inversion H | intros [? H]; discriminate].
  - destruct (decide (x = y)) as [->|Hne].
    + split; [eauto | intros _; left].
    + rewrite elem_of_cons, IH, fmap_is_Some. intuition congruence.
Qed.

Lemma list_remove_other x y l l' :
  list_remove x l = Some l' -> y <> x -> (y ∈ l' <-> y ∈ l).
Proof.
  revert l'. induction l as [|z l IH]; cbn; intros l' H Hne; [discriminate|].
  destruct (decide (x = z)) as [->|Hxz].
  - simplify_eq. rewrite elem_of_cons. intuition congruence.
  - destruct (list_remove x l) as [r|] eqn:Hr; cbn in H; simplify_eq.
    rewrite !elem_of_cons, (IH r eq_refl Hne). reflexivity.
Qed.

Lemma list_remove_NoDup x l l' :
  NoDup l -> list_remove x l = Some l' -> (x ∉ l') /\ NoDup l'.
Proof.
  revert l'. induction l as [|z l IH]; cbn; intros l' Hnd H; [discriminate|].
  apply NoDup_cons in Hnd as [Hz Hnd].
  destruct (decide (x = z)) as [->|Hxz].
  - simplify_eq. auto.
  - destruct (list_remove x l) as [r|] eqn:Hr; cbn in H; simplify_eq.
    destruct (IH r Hnd eq_refl) as [Hx Hr'].
    split.
    + rewrite elem_of_cons. intuition congruence.
    + apply NoDup_cons. split; [|exact Hr'].
      rewrite (list_remove_other x z l r Hr); [exact Hz | congruence].
Qed.

(** ** The request handlers do not look at the connections *)

Lemma blind_ret {A} (a : A) : blind (mret a).
Proof. intros l w. reflexivity. Qed.

Lemma blind_raise {A} (e : Exception) : blind (@raise A e).
Proof. intros l w. reflexivity. Qed.

Lemma blind_bind {A B} (m : M A) (k : A -> M B) :
  blind m -> (forall a, blind (k a)) -> blind (m ≫= k).
Proof.
  intros Hm Hk l w. unfold mbind, M_bind. rewrite Hm.
  destruct (m w) as [w' [e|a]]; cbn; [reflexivity | apply Hk].
Qed.

Lemma blind_try_except {A} (body : M A) names handler :
  blind body -> (forall e, blind (handler e)) -> blind (try_except body names handler).
Proof.
  intros Hb Hh l w. unfold try_except. rewrite Hb.
  destruct (body w) as [w' [e|a]]; cbn; [|reflexivity].
  destruct (names e); [apply Hh | reflexivity].
Qed.

Lemma blind_check_initialized : blind check_initialized.
Proof. intros l w. unfold check_initialized. cbn. destruct (primal_genesis w); reflexivity. Qed.

Lemma blind_engine_read {A} (f : Engine.PrimalGenesisModel -> A) : blind (engine_read f).
Proof. intros l w. unfold engine_read. cbn. destruct (primal_genesis w); reflexivity. Qed.

Lemma blind_engine_update f ev : blind (engine_update f ev).
Proof. intros l w. unfold engine_update. cbn. destruct (primal_genesis w); reflexivity. Qed.

Lemma blind_now : blind now.
Proof. intros l w. reflexivity. Qed.

Lemma blind_environ_setitem key value : blind (environ_setitem key value).
Proof. intros l w. unfold environ_setitem. repeat case_match; reflexivity. Qed.

Lemma blind_getitem {K V} `{Countable K} (d : gmap K V) k shown : blind (getitem d k shown).
Proof. intros l w. unfold getitem. destruct (d !! k); reflexivity. Qed.

Lemma blind_provider_of_value s : blind (provider_of_value s).
Proof. intros l w. unfold provider_of_value. case_match; reflexivity. Qed.

Lemma blind_mode_of_value s : blind (mode_of_value s).
Proof. intros l w. unfold mode_of_value. case_match; reflexivity. Qed.

Lemma blind_engine_generate backend u b i : blind (engine_generate backend u b i).
Proof. intros l w. unfold engine_generate. cbn. destruct (primal_genesis w); reflexivity. Qed.

Lemma blind_engine_initiate protocol : blind (engine_initiate protocol).
Proof. intros l w. unfold engine_initiate. cbn. destruct (primal_genesis w); reflexivity. Qed.

Lemma blind_loads json_loads doc : blind (loads json_loads doc).
Proof. intros l w. unfold loads. case_match; reflexivity. Qed.

Lemma blind_handle json_loads r : blind (handle json_loads r).
Proof.
  destruct r; cbn;
    unfold generate_traffic, switch_provider, switch_mystical_mode, get_sovereign_status,
      initiate_sovereign_protocol, engine_switch_provider, engine_switch_mystical_mode;
    repeat case_match;
    eauto 20 using blind_ret, blind_raise, blind_bind, blind_try_except,
      blind_check_initialized, blind_engine_read, blind_now, blind_getitem,
      blind_provider_of_value, blind_mode_of_value, blind_loads, blind_engine_update,
      blind_environ_setitem, blind_engine_generate, blind_engine_initiate.
Qed.

(** The answer to a request is the same whatever the connection list. *)
Lemma handle_answer_connections json_loads r w w' :
  primal_genesis w' = primal_genesis w ->
  environ w' = environ w ->
  clock w' = clock w ->
  history w' = history w ->
  (handle json_loads r w').2 = (handle json_loads r w).2.
Proof.
  intros Hpg Henv Hclk Hhist.
  assert (w' = with_connections (active_connections w') w) as ->.
  { destruct w, w'; cbn in *; subst; reflexivity. }
  rewrite blind_handle. reflexivity.
Qed.

(** ** One observer's steps and the others *)

(** The membership of another connection is not touched. *)
Lemma leave_others ws e c w B :
  B <> ws ->
  (B ∈ active_connections (leave ws e c w).1 <-> B ∈ active_connections w).
Proof.
  intros Hne. unfold leave.
  destruct (is_WebSocketDisconnect e); [|reflexivity].
  destruct (list_remove ws (active_connections w)) eqn:Hr; [|reflexivity].
  cbn. eapply list_remove_other; eauto.
Qed.

Lemma websocket_endpoint_others ws o c w w' c' B :
  websocket_endpoint ws o c w = Some (w', c') ->
  B <> ws ->
  (B ∈ active_connections w' <-> B ∈ active_connections w).
Proof.
  unfold websocket_endpoint. intros H Hne.
  destruct (pc c) as [|f|until| |e0]; [| | |discriminate|discriminate].
  - destruct o; injection H as <- <-; cbn; [|reflexivity].
    rewrite elem_of_app, list_elem_of_singleton. intuition congruence.
  - destruct (send_text o).
    + injection H as <- <-. reflexivity.
    + injection H as H. apply (f_equal fst) in H. cbn in H. subst w'.
      apply leave_others, Hne.
  - destruct o.
    + destruct (until <=? clock w); [|discriminate]. injection H as <- <-. reflexivity.
    + injection H as H. apply (f_equal fst) in H. cbn in H. subst w'.
      apply leave_others, Hne.
Qed.

Lemma leave_conn ws e c w w' :
  (ws ∈ active_connections w' <-> ws ∈ active_connections w) ->
  (leave ws e c w').2 = (leave ws e c w).2.
Proof.
  intros Hin. unfold leave.
  destruct (is_WebSocketDisconnect e); [|reflexivity].
  rewrite !list_remove_is_Some in Hin.
  destruct (list_remove ws (active_connections w')) eqn:H1,
           (list_remove ws (active_connections w)) eqn:H2; cbn; try reflexivity.
  - destruct Hin as [Hin _]. destruct Hin as [? ?]; [eauto | discriminate].
  - destruct Hin as [_ Hin]. destruct Hin as [? ?]; [eauto | discriminate].
Qed.

(** What a resumption makes of the connection depends on the engine, the
    clock and the connection's own membership, and on nothing else. *)
Lemma websocket_endpoint_conn ws o c w w' :
  primal_genesis w' = primal_genesis w ->
  clock w' = clock w ->
  (ws ∈ active_connections w' <-> ws ∈ active_connections w) ->
  snd <$> websocket_endpoint ws o c w' = snd <$> websocket_endpoint ws o c w.
Proof.
  intros Hpg Hclk Hin. unfold websocket_endpoint, status_update. cbn.
  rewrite Hpg, Hclk.
  destruct (pc c) as [|f|until| |e0]; try reflexivity.
  - destruct o; reflexivity.
  - destruct (send_text o) as [|e]; [reflexivity|].
    cbn. f_equal. apply leave_conn, Hin.
  - destruct o as [|e].
    + destruct (until <=? clock w); reflexivity.
    + cbn. f_equal. apply leave_conn, Hin.
Qed.

Lemma next_conn_eq json_loads B o s s' :
  conns s' !! B = conns s !! B ->
  primal_genesis (world s') = primal_genesis (world s) ->
  clock (world s') = clock (world s) ->
  (B ∈ active_connections (world s') <-> B ∈ active_connections (world s)) ->
  next_conn json_loads B o s' = next_conn json_loads B o s.
Proof.
  intros Hc Hpg Hclk Hin. unfold next_conn. cbn. rewrite Hc.
  destruct (conns s !! B) as [c|]; [|reflexivity].
  pose proof (websocket_endpoint_conn B o c (world s) (world s') Hpg Hclk Hin) as H.
  destruct (websocket_endpoint B o c (world s')) as [[w1 c1]|],
           (websocket_endpoint B o c (world s)) as [[w2 c2]|]; cbn in *; simplify_eq;
    rewrite ?lookup_insert_eq; reflexivity.
Qed.

(** The effect of a resumption of [A] on everything that is not [A]. *)
Lemma resume_isolated json_loads A o s s' :
  step json_loads (Resume A o) s = Some s' ->
  responses s' = responses s /\
  (forall r, (handle json_loads r (world s')).2 = (handle json_loads r (world s)).2) /\
  forall B, B <> A ->
    conns s' !! B = conns s !! B /\
    (B ∈ active_connections (world s') <-> B ∈ active_connections (world s)) /\
    forall o', next_conn json_loads B o' s' = next_conn json_loads B o' s.
Proof.
  intros H. cbn in H.
  destruct (conns s !! A) as [c|] eqn:Hc; [|discriminate].
  destruct (websocket_endpoint A o c (world s)) as [[w' c']|] eqn:Hws; [|discriminate].
  simplify_eq. cbn [world conns responses].
  destruct (websocket_endpoint_engine _ _ _ _ _ _ Hws) as (Hpg & Hclk & Henv & Hhist).
  split; [reflexivity|]. split.
  - intros r. apply handle_answer_connections; assumption.
  - intros B Hne.
    assert (Hc' : <[A := c']> (conns s) !! B = conns s !! B)
      by (apply lookup_insert_ne; congruence).
    assert (Hin := websocket_endpoint_others _ _ _ _ _ _ B Hws Hne).
    split; [exact Hc'|]. split; [exact Hin|].
    intros o'. apply next_conn_eq; cbn; assumption.
Qed.

(** ** The connection list of a running process *)

(** The two ways an exception inside the [try] can go for the list: the
    connection leaves it, or the list stays and the handler has failed. *)
Lemma leave_cases ws e c w :
  (list_remove ws (active_connections w) = Some (active_connections (leave ws e c w).1) /\
   pc (leave ws e c w).2 = Returned) \/
  (active_connections (leave ws e c w).1 = active_connections w /\
   exists e', pc (leave ws e c w).2 = Failed e').
Proof.
  unfold leave. destruct (is_WebSocketDisconnect e); [|right; cbn; eauto].
  destruct (list_remove ws (active_connections w)) eqn:Hr; cbn; [left | right]; eauto.
Qed.

(** The three ways a resumption can go for the list: the connection joins
    it, leaves it, or the list stays. *)
Lemma websocket_endpoint_cases ws o c w w' c' :
  websocket_endpoint ws o c w = Some (w', c') ->
  (pc c = Accepting /\ active_connections w' = active_connections w ++ [ws] /\
   exists f, pc c' = Sending f) \/
  (phase c = Active /\ list_remove ws (active_connections w) = Some (active_connections w') /\
   pc c' = Returned) \/
  (active_connections w' = active_connections w /\ pc c' <> Accepting /\
   pc c' <> Returned /\ (phase c' = Active -> phase c = Active)).
Proof.
  unfold websocket_endpoint, phase. intros H.
  assert (Hleave : forall e, Some (leave ws e c w) = Some (w', c') ->
            (list_remove ws (active_connections w) = Some (active_connections w') /\
             pc c' = Returned) \/
            (active_connections w' = active_connections w /\ pc c' <> Accepting /\
             pc c' <> Returned /\ phase c' <> Active)).
  { intros e He. injection He as He.
    destruct (leave_cases ws e c w) as [[Hl Hp] | [Hl [e' Hp]]];
      rewrite He in Hl, Hp; cbn in Hl, Hp; [left; auto | right].
    split; [exact Hl|]. unfold phase. rewrite Hp. repeat split; discriminate. }
  destruct (pc c) as [|f|until| |e0] eqn:Hpc; [| | |discriminate|discriminate].
  - destruct o; injection H as <- <-; cbn.
    + left. eauto.
    + right. right. repeat split; discriminate.
  - destruct (send_text o) as [|e].
    + injection H as <- <-. right. right. cbn. repeat split; discriminate.
    + destruct (Hleave e H) as [[Hl Hp] | (Hl & Hp & Hr & Hph)]; [right; left; auto|].
      right. right. repeat split; auto; intros Hact; contradiction.
  - destruct o as [|e].
    + destruct (until <=? clock w); [|discriminate]. injection H as <- <-.
      right. right. cbn. repeat split; discriminate.
    + destruct (Hleave e H) as [[Hl Hp] | (Hl & Hp & Hr & Hph)]; [right; left; auto|].
      right. right. repeat split; auto; intros Hact; contradiction.
Qed.

Lemma connections_wf_initial w :
  active_connections w = [] -> connections_wf (system_0 w).
Proof.
  intros Hl. split; cbn; rewrite ?Hl.
  - constructor.
  - intros ws H. inversion H.
  - intros ws c H. rewrite lookup_empty in H. discriminate.
Qed.

Lemma connections_wf_step json_loads a s s' :
  step json_loads a s = Some s' -> connections_wf s -> connections_wf s'.
Proof.
  intros Hstep [Hnd Hlisted Hactive].
  destruct a as [ws|ws o|d|r]; cbn in Hstep.
  - destruct (conns s !! ws) eqn:Hc; simplify_eq.
    split; cbn; [exact Hnd | |].
    + intros x Hx. destruct (Hlisted x Hx) as (c & Hcx & Hpc).
      exists c. split; [|exact Hpc].
      rewrite lookup_insert_ne; [exact Hcx | congruence].
    + intros x c Hx Hph. destruct (decide (ws = x)) as [->|Hne].
      * rewrite lookup_insert_eq in Hx. simplify_eq.
      * rewrite lookup_insert_ne in Hx by exact Hne. eauto.
  - destruct (conns s !! ws) as [c|] eqn:Hc; [|discriminate].
    destruct (websocket_endpoint ws o c (world s)) as [[w' c']|] eqn:Hws; [|discriminate].
    simplify_eq.
    destruct (websocket_endpoint_cases _ _ _ _ _ _ Hws)
      as [(Hpc & Hl & f & Hpc') | [(Hph & Hl & Hpc') | (Hl & Hpc' & _ & Hph)]].
    + assert (Hfresh : ws ∉ active_connections (world s)).
      { intros Hin. destruct (Hlisted ws Hin) as (c0 & Hc0 & Hne). congruence. }
      split; cbn; rewrite Hl.
      * apply NoDup_app. split; [exact Hnd|]. split; [|apply NoDup_singleton].
        intros x Hx Hx'. apply list_elem_of_singleton in Hx'. congruence.
      * intros x Hx. destruct (decide (ws = x)) as [->|Hne].
        -- exists c'. rewrite lookup_insert_eq. split; [reflexivity | congruence].
        -- rewrite lookup_insert_ne by exact Hne.
           apply elem_of_app in Hx as [Hx|Hx]; [auto|].
           apply list_elem_of_singleton in Hx. congruence.
      * intros x cx Hx Hphx. apply elem_of_app.
        destruct (decide (ws = x)) as [->|Hne].
        -- right. apply list_elem_of_singleton. reflexivity.
        -- rewrite lookup_insert_ne in Hx by exact Hne. left. eauto.
    + destruct (list_remove_NoDup _ _ _ Hnd Hl) as [Hgone Hnd'].
      split; cbn.
      * exact Hnd'.
      * intros x Hx. assert (Hne : ws <> x) by congruence.
        rewrite lookup_insert_ne by exact Hne.
        apply Hlisted. apply (list_remove_other _ x _ _ Hl); [congruence | exact Hx].
      * intros x cx Hx Hphx. destruct (decide (ws = x)) as [->|Hne].
        -- rewrite lookup_insert_eq in Hx. simplify_eq.
           unfold phase in Hphx. rewrite Hpc' in Hphx. discriminate.
        -- rewrite lookup_insert_ne in Hx by exact Hne.
           apply (list_remove_other _ x _ _ Hl); [congruence | eauto].
    + split; cbn; rewrite Hl.
      * exact Hnd.
      * intros x Hx. destruct (decide (ws = x)) as [->|Hne].
        -- exists c'. rewrite lookup_insert_eq. auto.
        -- rewrite lookup_insert_ne by exact Hne. auto.
      * intros x cx Hx Hphx. destruct (decide (ws = x)) as [->|Hne].
        -- rewrite lookup_insert_eq in Hx. simplify_eq. eauto.
        -- rewrite lookup_insert_ne in Hx by exact Hne. eauto.
  - destruct (0 <=? d); simplify_eq. split; cbn; assumption.
  - simplify_eq.
    pose proof (frame_connections _ _ (frame_handle json_loads r (world s))) as Hl.
    split; cbn; rewrite Hl; assumption.
Qed.

Lemma connections_wf_run json_loads acts s s' :
  run json_loads acts s = Some s' -> connections_wf s -> connections_wf s'.
Proof.
  revert s. induction acts as [|a acts IH]; cbn; intros s H Hwf.
  - simplify_eq. exact Hwf.
  - destruct (step json_loads a s) as [s1|] eqn:Hstep; [|discriminate].
    eapply IH; [exact H|]. eapply connections_wf_step; eauto.
Qed.

(** An exception inside the [try] closes the connection and delivers
    nothing; the disconnect signal takes a listed connection out of the
    list. *)
Lemma leave_closed ws e c w :
  inbox (leave ws e c w).2 = inbox c /\ phase (leave ws e c w).2 = Closed.
Proof. unfold leave. repeat case_match; cbn; auto. Qed.

Lemma leave_unlisted ws e c w :
  NoDup (active_connections w) ->
  ws ∈ active_connections w ->
  is_WebSocketDisconnect e = true ->
  ws ∉ active_connections (leave ws e c w).1.
Proof.
  intros Hnd Hin He. unfold leave. rewrite He.
  apply list_remove_is_Some in Hin as [l Hrem]. rewrite Hrem. cbn.
  apply (list_remove_NoDup _ _ _ Hnd Hrem).
Qed.

Lemma send_failure_disconnects e e' :
  send_failure e = true -> send_text (Raises e) = Raises e' ->
  is_WebSocketDisconnect e' = true.
Proof. destruct e; cbn; intros H1 H2; simplify_eq; reflexivity. Qed.

(** C8: an observer whose handler is in a send either receives the message
    and stays active, or the send fails and the handler ends: the
    connection is closed and receives nothing more, and when the failure is
    a failure of the delivery ([OSError] of the transport, which the
    framework's [send] raises as [WebSocketDisconnect]) or the disconnect
    signal, the connection is taken out of the connection list.  Whatever
    the outcome, nothing changes for any other observer: its state, its
    received messages and its place in the list are the same, its next
    resumption goes as it would have gone, and if it is in a send it
    receives its message.  No response is produced and the answers of the
    request handlers stay the same. *)
Theorem observer_send_is_isolated json_loads w0 acts s A c f o :
  active_connections w0 = [] ->
  run json_loads acts (system_0 w0) = Some s ->
  conns s !! A = Some c ->
  pc c = Sending f ->
  exists s',
    step json_loads (Resume A o) s = Some s' /\
    match o with
    | Completes =>
        inbox_of A s' = inbox c ++ [f] /\
        phase_of A s' = Some Active
    | Raises e =>
        inbox_of A s' = inbox c /\
        phase_of A s' = Some Closed /\
        (send_failure e = true -> A ∉ active_connections (world s'))
    end /\
    responses s' = responses s /\
    (forall r, (handle json_loads r (world s')).2 = (handle json_loads r (world s)).2) /\
    forall B, B <> A ->
      conns s' !! B = conns s !! B /\
      (B ∈ active_connections (world s') <-> B ∈ active_connections (world s)) /\
      (forall o', next_conn json_loads B o' s' = next_conn json_loads B o' s) /\
      (forall cB g, conns s !! B = Some cB -> pc cB = Sending g ->
         next_conn json_loads B Completes s' =
           Some {| pc := Sleeping (clock (world s) + 30);
                   inbox := inbox cB ++ [g] |}).
Proof.
  intros Hl Hrun Hc Hpc.
  pose proof (connections_wf_run _ _ _ _ Hrun (connections_wf_initial w0 Hl))
    as [Hnd Hlisted Hactive].
  assert (HA : A ∈ active_connections (world s)).
  { apply (Hactive A c Hc). unfold phase. rewrite Hpc. reflexivity. }
  assert (Hstep : exists s', step json_loads (Resume A o) s = Some s' /\
            match o with
            | Completes =>
                inbox_of A s' = inbox c ++ [f] /\
                phase_of A s' = Some Active
            | Raises e =>
                inbox_of A s' = inbox c /\
                phase_of A s' = Some Closed /\
                (send_failure e = true -> A ∉ active_connections (world s'))
            end).
  { cbn. rewrite Hc. unfold websocket_endpoint, inbox_of, phase_of. rewrite Hpc.
    destruct o as [|e].
    - eexists. split; [reflexivity|]. cbn. rewrite lookup_insert_eq. auto.
    - destruct (send_text (Raises e)) as [|e'] eqn:Hsend.
      { destruct e; discriminate Hsend. }
      destruct (leave_closed A e' c (world s)) as [Hin Hph].
      pose proof (leave_unlisted A e' c (world s) Hnd HA) as Hun.
      destruct (leave A e' c (world s)) as [w1 c1]. cbn in Hin, Hph, Hun.
      eexists. split; [reflexivity|]. cbn. rewrite lookup_insert_eq. cbn.
      split; [exact Hin|]. split; [rewrite Hph; reflexivity|].
      intros He. apply Hun.
      exact (send_failure_disconnects e e' He Hsend). }
  destruct Hstep as (s' & Hstep & Hout).
  exists s'. split; [exact Hstep|]. split; [exact Hout|].
  destruct (resume_isolated json_loads A o s s' Hstep) as (Hresp & Hans & Hothers).
  split; [exact Hresp|]. split; [exact Hans|].
  intros B Hne. destruct (Hothers B Hne) as (HcB & HinB & Hnext).
  split; [exact HcB|]. split; [exact HinB|]. split; [exact Hnext|].
  intros cB g HB HpcB. rewrite Hnext. unfold next_conn. cbn. rewrite HB.
  unfold websocket_endpoint. rewrite HpcB. cbn. rewrite lookup_insert_eq. reflexivity.
Qed.

Lemma observer_send_is_isolated_witness :
  active_connections world_0 = [] /\
  run loads_object (subscribe 1%nat ++ subscribe 2%nat) (system_0 world_0)
    = Some two_observers /\
  conns two_observers !! 1%nat =
    Some {| pc := Sending (status_update world_0); inbox := [] |} /\
  exists s',
    step loads_object (Resume 1%nat (Raises (OSError "connection reset"))) two_observers
      = Some s' /\
    phase_of 1%nat s' = Some Closed /\
    (1%nat ∉ active_connections (world s')) /\
    2%nat ∈ active_connections (world s') /\
    next_conn loads_object 2%nat Completes s' =
      Some {| pc := Sleeping 30; inbox := [status_update world_0] |}.
Proof.
  split; [reflexivity|]. split; [reflexivity|]. split; [reflexivity|].
  destruct (observer_send_is_isolated loads_object world_0
              (subscribe 1%nat ++ subscribe 2%nat) two_observers 1%nat
              {| pc := Sending (status_update world_0); inbox := [] |}
              (status_update world_0) (Raises (OSError "connection reset"))
              eq_refl eq_refl eq_refl eq_refl)
    as (s' & Hstep & (_ & Hclosed & Hgone) & _ & _ & Hothers).
  exists s'. split; [exact Hstep|]. split; [exact Hclosed|].
  split; [exact (Hgone eq_refl)|].
  destruct (Hothers 2%nat ltac:(discriminate)) as (_ & Hin & _ & Hnext).
  split.
  - apply Hin. cbn. apply list_elem_of_In. cbn. auto.
  - exact (Hnext {| pc := Sending (status_update world_0); inbox := [] |}
             (status_update world_0) eq_refl eq_refl).
Defined.

(** * Further properties of the handlers *)

(** ** Status codes *)

(** The outcome of a body under the catch-all clause of the handlers. *)
Lemma catch_all_outcome {A} (body : M A) w :
  let out := try_except body is_Exception
               (fun e => raise (HTTPException 500 (StrOf e))) w in
  (exists a, out.2 = inr a) \/ (exists e, out.2 = inl (HTTPException 500 (StrOf e))).
Proof.
  unfold try_except, raise. destruct (body w) as [w' [e|a]]; cbn; eauto.
Qed.

Lemma handle_outcome json_loads r w :
  let out := handle json_loads r w in
  (exists b, out.2 = inr b) \/ (exists e, out.2 = inl (HTTPException 500 (StrOf e))).
Proof. destruct r; apply catch_all_outcome. Qed.

(** X1: every request handler answers 200 or 500 and nothing else: a body on
    200, and on 500 a detail that is the text of the exception that ended
    the handler.  No client error ever leaves a handler, the 400 that the
    generation handler raises for an override included. *)
Theorem handlers_answer_200_or_500 json_loads r w :
  let out := handle json_loads r w in
  (exists b, respond out.2 = Http 200 (inl b)) \/
  (exists e, respond out.2 = Http 500 (inr (StrOf e))).
Proof.
  destruct (handle_outcome json_loads r w) as [[b Hb] | [e He]]; cbv zeta; rewrite ?Hb, ?He.
  - left. eexists. reflexivity.
  - right. eexists. reflexivity.
Qed.

(** ** The status handler and the pushed snapshot *)

(** X2: the status handler writes nothing, and what it answers is what the
    live-status channel pushes in the same state: a status body exactly when
    the pushed data is that status, an error exactly when the pushed data is
    the empty object. *)
Theorem status_matches_push w :
  (get_sovereign_status w).1 = w /\
  (forall st, (get_sovereign_status w).2 = inr (StatusBody st) <->
              data (status_update w) = StatusObject st) /\
  (failed (get_sovereign_status w).2 <-> data (status_update w) = EmptyObject).
Proof.
  rewrite get_sovereign_status_answer. unfold status_update, failed. cbn.
  split; [|split].
  - unfold_handlers. destruct (primal_genesis w) eqn:Hpg; cbn; rewrite ?Hpg; reflexivity.
  - intros st. destruct (primal_genesis w); split; intros H; simplify_eq; reflexivity.
  - destruct (primal_genesis w); split; intros H; simplify_eq; eauto.
    destruct H as [e H]. discriminate H.
Qed.

(** ** Empty overrides *)

Lemma override_idem o : override (override o) = override o.
Proof.
  destruct o as [s|]; cbn; [|reflexivity].
  destruct (truthy s) eqn:Ht; cbn; rewrite ?Ht; reflexivity.
Qed.

(** X3: the generation handler treats an override that is the empty string
    as no override: the request and the request with its empty overrides
    taken out have the same effect and the same answer. *)
Theorem empty_override_is_no_override backend json_loads request w :
  generate_traffic backend json_loads request w =
  generate_traffic backend json_loads (effective request) w.
Proof.
  unfold generate_traffic, effective, override.
  destruct request as [u b i [sp|] [sm|]]; cbn;
    repeat match goal with
           | |- context [truthy ?s] =>
               lazymatch goal with
               | H : truthy s = _ |- _ => fail
               | _ => destruct (truthy s) eqn:?
               end
           end;
    cbn; repeat match goal with H : truthy _ = _ |- _ => rewrite H end; reflexivity.
Qed.

(** ** The switch handlers are all or nothing *)

Lemma failed_catch_all_is_500 {A} (body : M A) w :
  let out := try_except body is_Exception
               (fun e => raise (HTTPException 500 (StrOf e))) w in
  failed out.2 -> exists e, out.2 = inl (HTTPException 500 (StrOf e)).
Proof.
  intros out [e0 He0].
  destruct (catch_all_outcome body w) as [[a Ha] | H]; [|exact H].
  fold out in Ha. congruence.
Qed.

(** X4: the provider handler answers 200 exactly when there is an engine,
    the identifier names a member and either no credential is given or the
    engine's table names a variable for the provider that the environment
    accepts; then the answer echoes the identifier.  In every other case the
    whole state is left as it was. *)
Theorem switch_provider_all_or_nothing config w :
  let out := switch_provider config w in
  (status_of (respond out.2) = 200 <->
     exists pg p,
       primal_genesis w = Some pg /\
       PrimalGenesisProvider.of_value (ProviderConfig.provider config) = Some p /\
       (truthy (ProviderConfig.api_key config) = false \/
        exists name, api_key_env pg p = Some name /\
                     putenv_refuses name (ProviderConfig.api_key config) = false)) /\
  (status_of (respond out.2) = 200 -> out.2 = inr (provider_body config w)) /\
  (status_of (respond out.2) <> 200 -> out.1 = w).
Proof.
  intros out.
  assert (Hfail : failed out.2 -> status_of (respond out.2) = 500).
  { intros Hf. destruct (failed_catch_all_is_500 _ w Hf) as [e He].
    fold out. unfold out, switch_provider. rewrite He. reflexivity. }
  destruct (primal_genesis w) as [pg|] eqn:Hpg.
  2:{ subst out. rewrite (switch_provider_uninitialized config w Hpg). cbn.
      split; [|split]; try discriminate; try reflexivity.
      split; [discriminate|]. intros (pg & p & H & _). discriminate H. }
  destruct (PrimalGenesisProvider.of_value (ProviderConfig.provider config)) as [p|] eqn:Hv.
  2:{ subst out. rewrite (switch_provider_unknown config w pg Hpg Hv). cbn.
      split; [|split]; try discriminate; try reflexivity.
      split; [discriminate|]. intros (pg' & p & _ & H & _). discriminate H. }
  destruct (truthy (ProviderConfig.api_key config)) eqn:Hk.
  - pose proof (switch_provider_with_key config w pg p Hpg Hv Hk) as H.
    cbv zeta in H. fold out in H.
    destruct (api_key_env pg p) as [name|] eqn:Hname.
    + destruct (putenv_refuses name (ProviderConfig.api_key config)) eqn:Hput.
      * destruct H as [Hw Hf]. rewrite (Hfail Hf).
        split; [|split]; try discriminate; try (intros _; exact Hw).
        split; [discriminate|].
        intros (pg' & p' & Hpg' & Hv' & [Hk' | (name' & Hn' & Hp')]); simplify_eq; congruence.
      * rewrite H. cbn. split; [|split]; try reflexivity; try congruence.
        split; [|reflexivity]. intros _. exists pg, p. eauto 10.
    + destruct H as [Hw Hf]. rewrite (Hfail Hf).
      split; [|split]; try discriminate; try (intros _; exact Hw).
      split; [discriminate|].
      intros (pg' & p' & Hpg' & Hv' & [Hk' | (name' & Hn' & Hp')]); simplify_eq; congruence.
  - subst out. rewrite (switch_provider_no_key config w pg p Hpg Hv Hk). cbn.
    split; [|split]; try reflexivity; try congruence.
    split; [|reflexivity]. intros _. exists pg, p. eauto.
Qed.

Lemma switch_provider_all_or_nothing_witness :
  let config := {| ProviderConfig.provider := "openai"; ProviderConfig.api_key := "sk-1" |} in
  let out := switch_provider config world_0 in
  api_key_env engine_0 PrimalGenesisProvider.OPENAI = Some "OPENAI_API_KEY" /\
  putenv_refuses "OPENAI_API_KEY" "sk-1" = false /\
  status_of (respond out.2) = 200 /\
  out.2 = inr (provider_body config world_0).
Proof.
  intros config out.
  destruct (switch_provider_all_or_nothing config world_0) as (Hiff & Hbody & _).
  split; [reflexivity|]. split; [reflexivity|].
  assert (H : status_of (respond out.2) = 200).
  { apply Hiff. exists engine_0, PrimalGenesisProvider.OPENAI.
    split; [reflexivity|]. split; [reflexivity|].
    right. exists "OPENAI_API_KEY". split; reflexivity. }
  split; [exact H | exact (Hbody H)].
Defined.

(** X5: the mode handler answers 200 exactly when there is an engine and
    the identifier names a member; then the engine's switch is called once
    with that member, the answer echoes the identifier, and the environment
    is not touched.  In every other case the whole state is left as it
    was. *)
Theorem switch_mode_all_or_nothing request w :
  let out := switch_mystical_mode request w in
  (status_of (respond out.2) = 200 <->
     is_Some (primal_genesis w) /\
     is_Some (MysticalMode.of_value (MysticalModeRequest.mode request))) /\
  (forall m, status_of (respond out.2) = 200 ->
     MysticalMode.of_value (MysticalModeRequest.mode request) = Some m ->
     out.2 = inr (mode_body request w) /\
     history out.1 = history w ++ [ModeSwitched m] /\
     environ out.1 = environ w) /\
  (status_of (respond out.2) <> 200 -> out.1 = w).
Proof.
  intros out. subst out.
  destruct (primal_genesis w) as [pg|] eqn:Hpg.
  2:{ rewrite (uninitialized_switch_mystical_mode request w Hpg). cbn.
      split; [|split]; try discriminate; try reflexivity.
      split; [discriminate|]. intros [[? H] _]. discriminate H. }
  destruct (MysticalMode.of_value (MysticalModeRequest.mode request)) as [m|] eqn:Hv.
  - rewrite (switch_mystical_mode_known request w pg m Hpg Hv). cbn.
    split; [|split]; try congruence.
    + split; [eauto|reflexivity].
    + intros m' _ Hm'. simplify_eq. auto.
  - rewrite (switch_mystical_mode_unknown request w pg Hpg Hv). cbn.
    split; [|split]; try discriminate; try reflexivity.
    split; [discriminate|]. intros [_ [? H]]. discriminate H.
Qed.

Lemma switch_mode_all_or_nothing_witness :
  let request := {| MysticalModeRequest.mode := "ethereal" |} in
  let out := switch_mystical_mode request world_0 in
  status_of (respond out.2) = 200 /\
  out.2 = inr (mode_body request world_0) /\
  history out.1 = [ModeSwitched MysticalMode.ETHEREAL] /\
  environ out.1 = environ world_0.
Proof.
  intros request out.
  destruct (switch_mode_all_or_nothing request world_0) as (Hiff & Hok & _).
  assert (H : status_of (respond out.2) = 200).
  { apply Hiff. split; [exists engine_0 | exists MysticalMode.ETHEREAL]; reflexivity. }
  split; [exact H|]. exact (Hok MysticalMode.ETHEREAL H eq_refl).
Defined.

(** ** What each handler can write *)

Lemma same_environ_refl w : same_environ w w.
Proof. reflexivity. Qed.

Lemma same_environ_trans w1 w2 w3 :
  same_environ w1 w2 -> same_environ w2 w3 -> same_environ w1 w3.
Proof. unfold same_environ. congruence. Qed.

Lemma same_environ_provider p : keeps same_environ (engine_switch_provider p).
Proof.
  intros w. unfold engine_switch_provider, engine_update.
  destruct (primal_genesis w); reflexivity.
Qed.

Lemma same_environ_mode m : keeps same_environ (engine_switch_mystical_mode m).
Proof.
  intros w. unfold engine_switch_mystical_mode, engine_update.
  destruct (primal_genesis w); reflexivity.
Qed.

Lemma same_environ_generate backend u b i :
  keeps same_environ (engine_generate backend u b i).
Proof. intros w. unfold engine_generate. destruct (primal_genesis w); reflexivity. Qed.

Lemma same_environ_initiate protocol : keeps same_environ (engine_initiate protocol).
Proof. intros w. unfold engine_initiate. destruct (primal_genesis w); reflexivity. Qed.


Lemma same_calls_refl w : same_calls w w.
Proof. reflexivity. Qed.

Lemma same_calls_trans w1 w2 w3 :
  same_calls w1 w2 -> same_calls w2 w3 -> same_calls w1 w3.
Proof. unfold same_calls. congruence. Qed.

Lemma same_calls_provider p : keeps same_calls (engine_switch_provider p).
Proof.
  intros w. unfold engine_switch_provider, engine_update, same_calls.
  destruct (primal_genesis w); cbn [fst]; [|reflexivity].
  rewrite adapter_calls_log_event. reflexivity.
Qed.

Lemma same_calls_mode m : keeps same_calls (engine_switch_mystical_mode m).
Proof.
  intros w. unfold engine_switch_mystical_mode, engine_update, same_calls.
  destruct (primal_genesis w); cbn [fst]; [|reflexivity].
  rewrite adapter_calls_log_event. reflexivity.
Qed.

Lemma same_calls_setitem key value : keeps same_calls (environ_setitem key value).
Proof.
  intros w. unfold environ_setitem, same_calls.
  repeat case_match; cbn [fst]; try reflexivity.
  rewrite adapter_calls_log_event. reflexivity.
Qed.

Lemma same_calls_initiate protocol : keeps same_calls (engine_initiate protocol).
Proof. intros w. unfold engine_initiate. destruct (primal_genesis w); reflexivity. Qed.

Lemma provider_refused_dec request : provider_refused request \/ ~ provider_refused request.
Proof.
  unfold provider_refused.
  destruct (override (TrafficRequest.provider request)) as [s|] eqn:Ho.
  - destruct (PrimalGenesisProvider.of_value s) eqn:Hv.
    + right. intros (s' & Hs' & Hv'). congruence.
    + left. eauto.
  - right. intros (s' & Hs' & _). discriminate.
Qed.

(** The calls of the backend that the generation handler adds: one when
    there is an engine and no override is refused, none otherwise. *)
Lemma generate_traffic_calls backend json_loads request w :
  let out := generate_traffic backend json_loads request w in
  (is_Some (primal_genesis w) /\ ~ provider_refused request /\ ~ mode_refused request /\
   adapter_calls out.1 = S (adapter_calls w)) \/
  ((primal_genesis w = None \/ provider_refused request \/ mode_refused request) /\
   adapter_calls out.1 = adapter_calls w).
Proof.
  intros out. subst out.
  destruct (primal_genesis w) as [pg|] eqn:Hpg.
  2:{ right. rewrite (uninitialized_generate_traffic _ _ _ _ Hpg). auto. }
  destruct (provider_refused_dec request) as [(s & Hs & Hv) | Hnp].
  { right. rewrite (generate_traffic_provider_refused _ _ _ _ _ _ Hpg Hs Hv).
    split; [|reflexivity]. right. left. exists s. auto. }
  destruct (mode_refused_dec request) as [(s & Hs & Hv) | Hnm].
  { right. rewrite (generate_traffic_mode_refused _ _ _ _ _ _ Hpg Hnp Hs Hv).
    split; [right; right; exists s; auto|].
    cbn [fst]. rewrite (commit_provider_world _ _ _ Hpg).
    destruct (provider_named request); [|reflexivity].
    rewrite adapter_calls_log_event. reflexivity. }
  left. split; [eauto|]. split; [exact Hnp|]. split; [exact Hnm|].
  destruct (generate_traffic_served backend json_loads request w pg Hpg Hnp Hnm)
    as (_ & Hhist & _).
  unfold adapter_calls. rewrite Hhist, !List.filter_app, override_events_not_generate.
  cbn. rewrite length_app. cbn. lia.
Qed.

(** X6: the environment of the process is written by nothing but the
    provider handler with a credential, which sets the one variable the
    engine's table names for the provider: any other step of the process
    (the other handlers, the provider handler without credential or
    refused, the observers, the clock) leaves the environment as it was, and
    no step ever unsets a variable. *)
Theorem environ_written_only_by_credential json_loads a s s' :
  step json_loads a s = Some s' ->
  (environ (world s') = environ (world s) \/
   exists config pg p name,
     a = Serve (PostSwitchProvider config) /\
     truthy (ProviderConfig.api_key config) = true /\
     primal_genesis (world s) = Some pg /\
     PrimalGenesisProvider.of_value (ProviderConfig.provider config) = Some p /\
     api_key_env pg p = Some name /\
     environ (world s') = <[name := ProviderConfig.api_key config]> (environ (world s))) /\
  (forall k, is_Some (environ (world s) !! k) -> is_Some (environ (world s') !! k)).
Proof.
  intros Hstep.
  assert (H : environ (world s') = environ (world s) \/
    exists config pg p name,
      a = Serve (PostSwitchProvider config) /\
      truthy (ProviderConfig.api_key config) = true /\
      primal_genesis (world s) = Some pg /\
      PrimalGenesisProvider.of_value (ProviderConfig.provider config) = Some p /\
      api_key_env pg p = Some name /\
      environ (world s') = <[name := ProviderConfig.api_key config]> (environ (world s))).
  { destruct a as [ws|ws o|d|r]; cbn in Hstep.
    - case_match; simplify_eq. left. reflexivity.
    - repeat case_match; simplify_eq. left. cbn.
      eapply websocket_endpoint_engine; eauto.
    - case_match; simplify_eq. left. reflexivity.
    - simplify_eq. cbn [world].
      destruct r as [request backend|config|request| |protocol]; cbn [handle].
      + left. apply (keeps_generate_traffic same_environ same_environ_refl
                       same_environ_trans same_environ_provider same_environ_mode
                       same_environ_generate).
      + destruct (primal_genesis (world s)) as [pg|] eqn:Hpg.
        2:{ left. rewrite (switch_provider_uninitialized _ _ Hpg). reflexivity. }
        destruct (PrimalGenesisProvider.of_value (ProviderConfig.provider config))
          as [p|] eqn:Hv.
        2:{ left. rewrite (switch_provider_unknown _ _ _ Hpg Hv). reflexivity. }
        destruct (truthy (ProviderConfig.api_key config)) eqn:Hk.
        2:{ left. rewrite (switch_provider_no_key _ _ _ _ Hpg Hv Hk). reflexivity. }
        pose proof (switch_provider_with_key config (world s) pg p Hpg Hv Hk) as H.
        cbv zeta in H.
        destruct (api_key_env pg p) as [name|] eqn:Hname.
        * destruct (putenv_refuses name (ProviderConfig.api_key config)).
          -- left. destruct H as [-> _]. reflexivity.
          -- right. exists config, pg, p, name. rewrite H. cbn. auto 10.
        * left. destruct H as [-> _]. reflexivity.
      + left. apply (keeps_switch_mystical_mode same_environ same_environ_refl
                       same_environ_trans same_environ_mode).
      + left. apply (keeps_get_sovereign_status same_environ same_environ_refl
                       same_environ_trans).
      + left. apply (keeps_initiate_sovereign_protocol same_environ same_environ_refl
                       same_environ_trans protocol (same_environ_initiate protocol)). }
  split; [exact H|].
  intros k Hk. destruct H as [-> | (config & pg & p & name & _ & _ & _ & _ & _ & ->)];
    [exact Hk|].
  destruct (decide (name = k)) as [->|Hne].
  - rewrite lookup_insert_eq. eauto.
  - rewrite lookup_insert_ne by exact Hne. exact Hk.
Qed.

Lemma environ_written_only_by_credential_witness :
  let config := {| ProviderConfig.provider := "openai"; ProviderConfig.api_key := "sk-1" |} in
  exists s',
    step loads_object (Serve (PostSwitchProvider config)) (system_0 world_0) = Some s' /\
    environ (world s') !! "OPENAI_API_KEY" = Some "sk-1" /\
    (forall k, is_Some (environ world_0 !! k) -> is_Some (environ (world s') !! k)).
Proof.
  intros config. eexists. split; [reflexivity|]. split; [reflexivity|].
  apply (environ_written_only_by_credential loads_object
           (Serve (PostSwitchProvider config)) (system_0 world_0) _ eq_refl).
Defined.

(** X7: the generation backend is called by nothing but the generation
    handler, and by it exactly once: a step that serves a generation
    request while there is an engine, with no override of the request
    refused, adds one call of the backend, and every other step of the
    process (a generation request without engine or with a refused
    override, the other handlers, the observers, the clock) adds none. *)
Theorem backend_called_only_by_generation json_loads a s s' :
  step json_loads a s = Some s' ->
  (calls_backend a (world s) ->
     adapter_calls (world s') = S (adapter_calls (world s))) /\
  (~ calls_backend a (world s) ->
     adapter_calls (world s') = adapter_calls (world s)).
Proof.
  intros Hstep. unfold calls_backend.
  destruct a as [ws|ws o|d|r]; cbn in Hstep.
  - case_match; simplify_eq.
    split; [intros (? & ? & ? & _); discriminate | reflexivity].
  - split; [intros (? & ? & ? & _); discriminate | intros _].
    destruct (conns s !! ws) as [c|]; [|discriminate].
    destruct (websocket_endpoint ws o c (world s)) as [[w' c']|] eqn:Hws; [|discriminate].
    simplify_eq. cbn. unfold adapter_calls.
    f_equal. f_equal. eapply websocket_endpoint_engine; eauto.
  - case_match; simplify_eq.
    split; [intros (? & ? & ? & _); discriminate | reflexivity].
  - simplify_eq. cbn [world].
    destruct r as [request backend|config|request| |protocol]; cbn [handle].
    + destruct (generate_traffic_calls backend json_loads request (world s))
        as [(Hpg & Hnp & Hnm & Hc) | (Hno & Hc)].
      * split; [intros _; exact Hc | intros Hnot].
        exfalso. apply Hnot. exists request, backend. auto.
      * split; [|intros _; exact Hc].
        intros (request' & backend' & Heq & Hpg & Hnp & Hnm). simplify_eq.
        destruct Hno as [Hnone | [Hp | Hm]]; [|contradiction|contradiction].
        rewrite Hnone in Hpg. destruct Hpg as [? ?]. discriminate.
    + split; [intros (? & ? & ? & _); discriminate | intros _].
      apply (keeps_switch_provider same_calls same_calls_refl same_calls_trans
               same_calls_provider same_calls_setitem).
    + split; [intros (? & ? & ? & _); discriminate | intros _].
      apply (keeps_switch_mystical_mode same_calls same_calls_refl
               same_calls_trans same_calls_mode).
    + split; [intros (? & ? & ? & _); discriminate | intros _].
      apply (keeps_get_sovereign_status same_calls same_calls_refl
               same_calls_trans).
    + split; [intros (? & ? & ? & _); discriminate | intros _].
      apply (keeps_initiate_sovereign_protocol same_calls same_calls_refl
               same_calls_trans protocol (same_calls_initiate protocol)).
Qed.

Lemma backend_called_only_by_generation_witness :
  let served := Serve (PostGenerateTraffic (request_of 5 None None) backend_ok) in
  let refused := Serve (PostGenerateTraffic (request_of 5 (Some "llama") None) backend_ok) in
  exists s1 s2,
    step loads_object served (system_0 world_0) = Some s1 /\
    calls_backend served world_0 /\
    adapter_calls (world s1) = 1%nat /\
    step loads_object refused s1 = Some s2 /\
    ~ calls_backend refused (world s1) /\
    adapter_calls (world s2) = 1%nat.
Proof.
  intros served refused.
  assert (Hcalls : calls_backend served world_0).
  { exists (request_of 5 None None), backend_ok.
    split; [reflexivity|]. split; [exists engine_0; reflexivity|].
    split; intros (s & Hs & _); discriminate Hs. }
  assert (Hnot : ~ calls_backend refused
                     (world (default (system_0 world_0)
                               (step loads_object served (system_0 world_0))))).
  { intros (request & backend & Heq & _ & Hnp & _). injection Heq as <- _.
    apply Hnp. exists "llama". split; reflexivity. }
  eexists. eexists.
  split; [reflexivity|]. split; [exact Hcalls|].
  split; [exact (proj1 (backend_called_only_by_generation loads_object served
                          (system_0 world_0) _ eq_refl) Hcalls)|].
  split; [reflexivity|]. split; [exact Hnot|].
  exact (proj2 (backend_called_only_by_generation loads_object refused _ _ eq_refl) Hnot).
Defined.

(** ** When a generation succeeds *)

(** X8: on a running engine the generation handler returns a body exactly
    when no override is refused, the backend, called under the engine as
    the overrides left it, returns a response, and [json.loads] accepts its
    content; the body then carries the parsed content, the response's
    metadata and the time.  A failure of the backend or of the parsing does
    not undo the overrides. *)
Theorem generation_succeeds_iff backend json_loads request w pg :
  primal_genesis w = Some pg ->
  let out := generate_traffic backend json_loads request w in
  (forall body, out.2 = inr body <->
     ~ provider_refused request /\ ~ mode_refused request /\
     exists response pattern,
       backend (engine_after request pg) (TrafficRequest.target_url request)
         (TrafficRequest.behavior_type request) (TrafficRequest.intensity request)
         = inr response /\
       json_loads (Engine.content response) = Some pattern /\
       body = TrafficBody true pattern (Engine.metadata response) (clock w)) /\
  (~ provider_refused request -> ~ mode_refused request ->
   primal_genesis out.1 = Some (engine_after request pg)).
Proof.
  intros Hpg out. subst out. split.
  - intros body.
    destruct (provider_refused_dec request) as [(s & Hs & Hv) | Hnp].
    { rewrite (generate_traffic_provider_refused _ _ _ _ _ _ Hpg Hs Hv). cbn.
      split; [discriminate|]. intros (Hnp & _). exfalso. apply Hnp. exists s. auto. }
    destruct (mode_refused_dec request) as [(s & Hs & Hv) | Hnm].
    { rewrite (generate_traffic_mode_refused _ _ _ _ _ _ Hpg Hnp Hs Hv). cbn.
      split; [discriminate|]. intros (_ & Hnm & _). exfalso. apply Hnm. exists s. auto. }
    destruct (generate_traffic_served backend json_loads request w pg Hpg Hnp Hnm)
      as (_ & _ & ->).
    destruct (backend _ _ _ _) as [e|response]; cbn.
    + split; [discriminate|]. intros (_ & _ & r & p & H & _). discriminate H.
    + destruct (json_loads (Engine.content response)) as [pattern|] eqn:Hl.
      * split.
        -- intros H. simplify_eq. split; [exact Hnp|]. split; [exact Hnm|].
           exists response, pattern. auto.
        -- intros (_ & _ & r & p & Hr & Hp & ->). simplify_eq. reflexivity.
      * split; [discriminate|].
        intros (_ & _ & r & p & Hr & Hp & _). simplify_eq.
  - intros Hnp Hnm.
    apply (generate_traffic_served backend json_loads request w pg Hpg Hnp Hnm).
Qed.

Lemma generation_succeeds_iff_witness :
  let request := request_of 5 (Some "gemini") None in
  let out := generate_traffic backend_ok loads_object request world_0 in
  primal_genesis world_0 = Some engine_0 /\
  out.2 = inr (TrafficBody true (JObj []) (JObj []) 0) /\
  primal_genesis out.1 = Some (engine_after request engine_0).
Proof.
  intros request out.
  destruct (generation_succeeds_iff backend_ok loads_object request world_0 engine_0 eq_refl)
    as (Hiff & Hkeep).
  assert (Hnp : ~ provider_refused request).
  { intros (s & Hs & Hv). vm_compute in Hs. injection Hs as <-. vm_compute in Hv.
    discriminate Hv. }
  assert (Hnm : ~ mode_refused request).
  { intros (s & Hs & _). discriminate Hs. }
  split; [reflexivity|]. split.
  - apply Hiff. split; [exact Hnp|]. split; [exact Hnm|].
    exists {| Engine.content := "{}"; Engine.metadata := JObj [] |}, (JObj []).
    split; [reflexivity|]. split; reflexivity.
  - exact (Hkeep Hnp Hnm).
Defined.

(** ** Without an engine nothing happens *)

Lemma uninitialized_handle json_loads r w :
  primal_genesis w = None ->
  handle json_loads r w =
    (w, inl (HTTPException 500
               (StrOf (HTTPException 500 (Text "Primal Genesis Engine not initialized"))))).
Proof.
  intros Hpg. destruct r; cbn.
  - apply uninitialized_generate_traffic, Hpg.
  - apply switch_provider_uninitialized, Hpg.
  - apply uninitialized_switch_mystical_mode, Hpg.
  - unfold_handlers. rewrite Hpg. reflexivity.
  - unfold initiate_sovereign_protocol, engine_initiate. unfold_handlers.
    rewrite Hpg. reflexivity.
Qed.

(** X9: when the constructor of the engine raises, the startup hook raises
    the same exception, not wrapped, and the process is left as it was; and
    in a process without engine each of the five request handlers answers
    the same 500 without calling the engine, the backend or the environment:
    the whole state is unchanged. *)
Theorem without_engine_nothing_happens new_model json_loads w e r :
  primal_genesis w = None ->
  new_model default_config = inl e ->
  startup_event new_model w = (w, inl e) /\
  (handle json_loads r (startup_event new_model w).1).1 = w /\
  respond (handle json_loads r (startup_event new_model w).1).2 = not_initialized.
Proof.
  intros Hpg Hnew.
  assert (Hs : startup_event new_model w = (w, inl e)).
  { unfold startup_event, try_except, construct, mbind, M_bind, raise.
    rewrite Hnew. reflexivity. }
  rewrite Hs. cbn [fst]. rewrite (uninitialized_handle json_loads r w Hpg).
  auto.
Qed.

Lemma without_engine_nothing_happens_witness :
  let w := with_engine None world_0 in
  primal_genesis w = None /\
  new_engine_fails default_config = inl (BackendFailure "no engine") /\
  startup_event new_engine_fails w = (w, inl (BackendFailure "no engine")) /\
  (handle loads_object (PostGenerateTraffic (request_of 5 None None) backend_ok)
     (startup_event new_engine_fails w).1).1 = w /\
  respond (handle loads_object (PostGenerateTraffic (request_of 5 None None) backend_ok)
             (startup_event new_engine_fails w).1).2 = not_initialized.
Proof.
  intros w. split; [reflexivity|]. split; [reflexivity|].
  exact (without_engine_nothing_happens new_engine_fails loads_object w
           (BackendFailure "no engine")
           (PostGenerateTraffic (request_of 5 None None) backend_ok) eq_refl eq_refl).
Defined.

(** * Further properties of the live-status channel *)

(** ** The pace of the snapshots under any schedule *)

Lemma paced_later now now' c : now <= now' -> paced now c -> paced now' c.
Proof.
  intros Hle [Hg Hl Hp]. split; [exact Hg | exact Hl |].
  intros g Hpc. specialize (Hp g Hpc). lia.
Qed.

Lemma paced_leave ws e c w now : paced now c -> paced now (leave ws e c w).2.
Proof.
  intros [Hg Hl Hp]. unfold leave.
  repeat case_match; split; cbn; auto; intros; discriminate.
Qed.

Lemma paced_resume ws o c w w' c' :
  websocket_endpoint ws o c w = Some (w', c') ->
  paced (clock w) c -> paced (clock w) c'.
Proof.
  unfold websocket_endpoint. intros H Hpaced.
  assert (Hleave : forall e, Some (leave ws e c w) = Some (w', c') -> paced (clock w) c').
  { intros e He. injection He as He. apply (f_equal snd) in He. cbn in He. subst c'.
    apply paced_leave, Hpaced. }
  destruct Hpaced as [Hg Hl Hp].
  destruct (pc c) as [|m|until| |e0] eqn:Hpc; [| | |discriminate|discriminate].
  - (* accept *)
    assert (Hnil : inbox c = []).
    { destruct (last (inbox c)) as [f|] eqn:Hf; [destruct (Hl f eq_refl)|].
      apply last_None in Hf. exact Hf. }
    destruct o; injection H as <- <-; split; cbn; rewrite ?Hnil; intros; simplify_eq.
    cbn. lia.
  - (* send *)
    destruct (send_text o) as [|e]; [|exact (Hleave e H)].
    injection H as <- <-. split; cbn.
    + intros i f g Hf Hg'.
      destruct (decide (S i < length (inbox c))%nat) as [Hlt|Hge].
      * rewrite lookup_app_l in Hf by lia. rewrite lookup_app_l in Hg' by lia. eauto.
      * assert (Hi : S i = length (inbox c)).
        { apply lookup_lt_Some in Hg'. rewrite length_app in Hg'. cbn in Hg'. lia. }
        rewrite lookup_app_l in Hf by lia.
        rewrite lookup_app_r in Hg' by lia.
        replace (S i - length (inbox c))%nat with 0%nat in Hg' by lia.
        cbn in Hg'. injection Hg' as <-.
        apply (Hl f). rewrite last_lookup.
        replace (pred (length (inbox c))) with i by lia. exact Hf.
    + intros f Hf. rewrite last_snoc in Hf. injection Hf as <-.
      specialize (Hp m eq_refl). unfold sleep_seconds. lia.
    + intros g Hg'. discriminate.
  - (* wake *)
    destruct o as [|e]; [|exact (Hleave e H)].
    destruct (until <=? clock w) eqn:Hle; [|discriminate]. injection H as <- <-.
    apply Z.leb_le in Hle. split; cbn; [exact Hg | |].
    + intros f Hf. specialize (Hl f Hf). cbn in Hl. lia.
    + intros g Hg'. injection Hg' as <-. cbn. lia.
Qed.

Lemma all_paced_step json_loads a s s' :
  step json_loads a s = Some s' -> all_paced s -> all_paced s'.
Proof.
  intros Hstep Hall. destruct a as [x|x o|d|r]; cbn in Hstep.
  - destruct (conns s !! x) eqn:Hx; simplify_eq.
    intros ws c. cbn. destruct (decide (x = ws)) as [->|Hne].
    + rewrite lookup_insert_eq. intros Hc. simplify_eq.
      split; cbn; intros; simplify_eq.
    + rewrite lookup_insert_ne by exact Hne. apply Hall.
  - destruct (conns s !! x) as [cx|] eqn:Hx; [|discriminate].
    destruct (websocket_endpoint x o cx (world s)) as [[w' c']|] eqn:Hws; [|discriminate].
    simplify_eq.
    destruct (websocket_endpoint_engine _ _ _ _ _ _ Hws) as (_ & Hclk & _).
    intros ws c. cbn. rewrite Hclk. destruct (decide (x = ws)) as [->|Hne].
    + rewrite lookup_insert_eq. intros Hc. simplify_eq.
      eapply paced_resume; [exact Hws|]. apply (Hall ws cx Hx).
    + rewrite lookup_insert_ne by exact Hne. apply Hall.
  - destruct (0 <=? d) eqn:Hd; simplify_eq. apply Z.leb_le in Hd.
    intros ws c Hc. cbn in *. eapply paced_later; [|apply (Hall ws c Hc)]. lia.
  - simplify_eq. intros ws c Hc. cbn in *.
    rewrite (frame_clock _ _ (frame_handle json_loads r (world s))).
    apply (Hall ws c Hc).
Qed.

Lemma all_paced_run json_loads acts s s' :
  run json_loads acts s = Some s' -> all_paced s -> all_paced s'.
Proof.
  revert s. induction acts as [|a acts IH]; cbn; intros s H Hall.
  - simplify_eq. exact Hall.
  - destruct (step json_loads a s) as [s1|] eqn:Hstep; [|discriminate].
    eapply IH; [exact H|]. eapply all_paced_step; eauto.
Qed.

(** X11: whatever the schedule (other observers, requests served in
    between, the clock advancing by any amounts, slow sends, late
    wake-ups), two consecutive snapshots received by one observer are
    stamped at least 30 time units apart. *)
Theorem snapshots_at_least_30_apart json_loads w0 acts s ws i f g :
  run json_loads acts (system_0 w0) = Some s ->
  inbox_of ws s !! i = Some f ->
  inbox_of ws s !! S i = Some g ->
  timestamp f + 30 <= timestamp g.
Proof.
  intros Hrun Hf Hg.
  assert (Hall : all_paced s).
  { eapply all_paced_run; [exact Hrun|].
    intros x c Hc. cbn in Hc. rewrite lookup_empty in Hc. discriminate. }
  unfold inbox_of in *. destruct (conns s !! ws) as [c|] eqn:Hc; [|discriminate].
  exact (paced_gaps _ _ (Hall ws c Hc) i f g Hf Hg).
Qed.

Lemma snapshots_at_least_30_apart_witness :
  exists s f g,
    run loads_object late_schedule (system_0 world_0) = Some s /\
    inbox_of 7%nat s !! 0%nat = Some f /\
    inbox_of 7%nat s !! 1%nat = Some g /\
    timestamp f = 0 /\ timestamp g = 45 /\
    timestamp f + 30 <= timestamp g.
Proof.
  eexists. eexists. eexists.
  split; [vm_compute; reflexivity|].
  split; [vm_compute; reflexivity|]. split; [vm_compute; reflexivity|].
  split; [reflexivity|]. split; [reflexivity|].
  eapply (snapshots_at_least_30_apart loads_object world_0 late_schedule _ 7%nat 0%nat);
    vm_compute; reflexivity.
Defined.

(** ** Who changes the connection list *)

Lemma is_WebSocketDisconnect_eq e : is_WebSocketDisconnect e = true -> e = WebSocketDisconnect.
Proof. destruct e; cbn; congruence. Qed.

Lemma send_text_disconnect o :
  send_text o = Raises WebSocketDisconnect ->
  exists e, o = Raises e /\ send_failure e = true.
Proof.
  destruct o as [|e]; [discriminate|].
  destruct e; cbn; intros H; simplify_eq; eexists; split; reflexivity.
Qed.

Lemma leave_own ws e c w :
  active_connections (leave ws e c w).1 = active_connections w \/
  (e = WebSocketDisconnect /\
   list_remove ws (active_connections w) = Some (active_connections (leave ws e c w).1)).
Proof.
  unfold leave. destruct (is_WebSocketDisconnect e) eqn:He; [|auto].
  apply is_WebSocketDisconnect_eq in He as ->.
  destruct (list_remove ws (active_connections w)) eqn:Hr; cbn; auto.
Qed.

(** The ways a resumption changes the membership of its own connection. *)
Lemma websocket_endpoint_own ws o c w w' c' :
  websocket_endpoint ws o c w = Some (w', c') ->
  active_connections w' = active_connections w \/
  (o = Completes /\ pc c = Accepting /\
   active_connections w' = active_connections w ++ [ws]) \/
  (leaves_on (pc c) o /\
   list_remove ws (active_connections w) = Some (active_connections w')).
Proof.
  unfold websocket_endpoint, leaves_on. intros H.
  destruct (pc c) as [|f|until| |e0] eqn:Hpc; [| | |discriminate|discriminate].
  - destruct o; injection H as <- <-; cbn; auto.
  - destruct (send_text o) as [|e] eqn:Hsend.
    + injection H as <- <-. auto.
    + injection H as H. apply (f_equal fst) in H. cbn in H. subst w'.
      destruct (leave_own ws e c w) as [Hl | [-> Hl]]; [auto|].
      right. right. split; [|exact Hl].
      destruct (send_text_disconnect o Hsend) as (e & -> & He). eauto.
  - destruct o as [|e].
    + destruct (until <=? clock w); [|discriminate]. injection H as <- <-. auto.
    + injection H as H. apply (f_equal fst) in H. cbn in H. subst w'.
      destruct (leave_own ws e c w) as [Hl | [-> Hl]]; [auto|].
      right. right. split; [reflexivity | exact Hl].
Qed.

(** X12: the connection list changes in two ways only.  A connection enters
    it when its own handler gets through [accept], and leaves it when its
    own handler, inside its loop, is raised the disconnect signal: in its
    send, where a failure of the delivery reaches it as that signal, or in
    its sleep.  No request, no tick and no step of another observer adds or
    removes it. *)
Theorem list_changes_by_own_handler_only json_loads a s s' B :
  step json_loads a s = Some s' ->
  (B ∈ active_connections (world s') -> B ∉ active_connections (world s) ->
   a = Resume B Completes /\ exists c, conns s !! B = Some c /\ pc c = Accepting) /\
  (B ∈ active_connections (world s) -> B ∉ active_connections (world s') ->
   exists o c, a = Resume B o /\ conns s !! B = Some c /\ leaves_on (pc c) o).
Proof.
  intros Hstep. destruct a as [x|x o|d|r]; cbn in Hstep.
  - destruct (conns s !! x); simplify_eq. cbn. split; intros; contradiction.
  - destruct (conns s !! x) as [cx|] eqn:Hx; [|discriminate].
    destruct (websocket_endpoint x o cx (world s)) as [[w' c']|] eqn:Hws; [|discriminate].
    simplify_eq. cbn [world].
    destruct (decide (B = x)) as [->|Hne].
    + destruct (websocket_endpoint_own _ _ _ _ _ _ Hws)
        as [Hl | [(-> & Hpc & Hl) | (Hon & Hl)]].
      * rewrite Hl. split; intros; contradiction.
      * split; [eauto|]. rewrite Hl. intros Hin Hout. exfalso. apply Hout.
        apply elem_of_app. auto.
      * split; [|eauto]. intros Hin Hout. exfalso. apply Hout.
        apply list_remove_is_Some. rewrite Hl. eauto.
    + pose proof (websocket_endpoint_others _ _ _ _ _ _ B Hws Hne) as Hiff.
      split; intros H1 H2; exfalso; apply H2, Hiff, H1.
  - destruct (0 <=? d); simplify_eq. cbn. split; intros; contradiction.
  - simplify_eq. cbn [world].
    rewrite (frame_connections _ _ (frame_handle json_loads r (world s))).
    split; intros; contradiction.
Qed.

Lemma list_changes_by_own_handler_only_witness :
  let a := Resume 1%nat (Raises WebSocketDisconnect) in
  exists s',
    step loads_object a two_observers = Some s' /\
    active_connections (world two_observers) = [1%nat; 2%nat] /\
    active_connections (world s') = [2%nat] /\
    exists o c, a = Resume 1%nat o /\ conns two_observers !! 1%nat = Some c /\
      leaves_on (pc c) o.
Proof.
  intros a. eexists. split; [reflexivity|]. split; [reflexivity|]. split; [reflexivity|].
  apply (list_changes_by_own_handler_only loads_object a two_observers _ 1%nat eq_refl).
  - cbn. left.
  - cbn. intros H. apply list_elem_of_In in H. cbn in H.
    destruct H as [H|[]]. discriminate H.
Defined.

(** ** The connection list in every state the process reaches *)

Lemma returned_unlisted_step json_loads a s s' :
  step json_loads a s = Some s' ->
  connections_wf s -> returned_unlisted s -> returned_unlisted s'.
Proof.
  intros Hstep [Hnd _ _] Hret. destruct a as [x|x o|d|r]; cbn in Hstep.
  - destruct (conns s !! x) eqn:Hx; simplify_eq.
    intros ws c. cbn. destruct (decide (x = ws)) as [->|Hne].
    + rewrite lookup_insert_eq. intros Hc Hpc. simplify_eq.
    + rewrite lookup_insert_ne by exact Hne. apply Hret.
  - destruct (conns s !! x) as [cx|] eqn:Hx; [|discriminate].
    destruct (websocket_endpoint x o cx (world s)) as [[w' c']|] eqn:Hws; [|discriminate].
    simplify_eq. intros ws c. cbn. destruct (decide (x = ws)) as [->|Hne].
    + rewrite lookup_insert_eq. intros Hc Hpc. injection Hc as ->.
      destruct (websocket_endpoint_cases _ _ _ _ _ _ Hws)
        as [(_ & _ & f & Hf) | [(_ & Hl & _) | (_ & _ & Hr & _)]].
      * rewrite Hpc in Hf. discriminate.
      * apply (list_remove_NoDup _ _ _ Hnd Hl).
      * contradiction.
    + rewrite lookup_insert_ne by exact Hne. intros Hc Hpc Hin.
      apply (Hret ws c Hc Hpc).
      apply (websocket_endpoint_others _ _ _ _ _ _ ws Hws); [congruence | exact Hin].
  - destruct (0 <=? d); simplify_eq. exact Hret.
  - simplify_eq. intros ws c Hc Hpc. cbn in *.
    rewrite (frame_connections _ _ (frame_handle json_loads r (world s))).
    apply (Hret ws c Hc Hpc).
Qed.

Lemma returned_unlisted_run json_loads acts s s' :
  run json_loads acts s = Some s' ->
  connections_wf s -> returned_unlisted s -> returned_unlisted s'.
Proof.
  revert s. induction acts as [|a acts IH]; cbn; intros s H Hwf Hret.
  - simplify_eq. exact Hret.
  - destruct (step json_loads a s) as [s1|] eqn:Hstep; [|discriminate].
    eapply IH; [exact H | |].
    + eapply connections_wf_step; eauto.
    + eapply returned_unlisted_step; eauto.
Qed.

(** X13: in every state that a process started with an empty connection
    list reaches, the list holds no connection twice, it holds every active
    observer, and each connection it holds is known, past [accept] and has
    not left through the disconnect clause. *)
Theorem connection_list_invariant json_loads w0 acts s :
  active_connections w0 = [] ->
  run json_loads acts (system_0 w0) = Some s ->
  NoDup (active_connections (world s)) /\
  (forall ws c, conns s !! ws = Some c -> phase c = Active ->
     ws ∈ active_connections (world s)) /\
  (forall ws, ws ∈ active_connections (world s) ->
     exists c, conns s !! ws = Some c /\ pc c <> Accepting /\ pc c <> Returned).
Proof.
  intros Hl Hrun.
  pose proof (connections_wf_run _ _ _ _ Hrun (connections_wf_initial w0 Hl))
    as [Hnd Hlisted Hactive].
  assert (Hret : returned_unlisted s).
  { eapply returned_unlisted_run; [exact Hrun | apply connections_wf_initial, Hl |].
    intros ws c Hc. cbn in Hc. rewrite lookup_empty in Hc. discriminate. }
  split; [exact Hnd|]. split; [exact Hactive|].
  intros ws Hin. destruct (Hlisted ws Hin) as (c & Hc & Hpc).
  exists c. split; [exact Hc|]. split; [exact Hpc|].
  intros Hr. exact (Hret ws c Hc Hr Hin).
Qed.

Lemma connection_list_invariant_witness :
  active_connections world_0 = [] /\
  exists s,
    run loads_object busy_day (system_0 world_0) = Some s /\
    NoDup (active_connections (world s)) /\
    (forall ws c, conns s !! ws = Some c -> phase c = Active ->
       ws ∈ active_connections (world s)) /\
    (forall ws, ws ∈ active_connections (world s) ->
       exists c, conns s !! ws = Some c /\ pc c <> Accepting /\ pc c <> Returned).
Proof.
  split; [reflexivity|].
  eexists. split; [vm_compute; reflexivity|].
  apply (connection_list_invariant loads_object world_0 busy_day);
    [reflexivity | vm_compute; reflexivity].
Defined.
